(** * The splice-junction pipeline of [filter_junction.py]

    A shallow embedding of the extract / load / filter / join / filter /
    aggregate pipeline, and the properties of it that the design document
    states.

    Conventions of the model.

    - A table (a [pyarrow.Table] or a [pandas.DataFrame]) is a schema, the
      list of its column names, and a list of rows; a row is the list of the
      cells of the columns, in schema order.  Every column the pipeline
      inspects holds text, so a cell is [option string]: [None] is the null
      of pyarrow and the [NaN]/[None] of pandas.  The row order of a pyarrow
      join and the index labels a [DataFrame] carries are not part of the
      model.
    - A Python exception is a value of [exn]; code that may raise returns a
      [result].  Code that touches the disk runs in the monad [M], which
      threads the file system and stops at the first exception.  A handler
      of the shape [except Exception as e: print(...); raise] re-raises what
      it caught, so such a [try] block is modelled by its body; console
      output is not modelled.
    - The file system is a finite map from directory names to directories,
      and a directory is a finite map from entry names to entries.  A path
      is the pair of a directory name and an entry name:
      [os.path.join(extract_dir, f)] is [(extract_dir, f)], and a relative
      file name such as ["filtered_data.csv"] lives in the directory ["."].
      A file is known by what its readers make of it. *)

From Stdlib Require Import String Ascii List Bool Arith Lia Permutation Sorted.
From stdpp Require Import gmap strings fin_maps pretty.
Import ListNotations.
Open Scope string_scope.
Open Scope list_scope.

(** ** Exceptions and results *)

Inductive exn : Type :=
| BadZipFile                         (* zipfile.BadZipFile *)
| FileNotFoundError                  (* a path that does not exist *)
| OSError                            (* a directory in the way, a directory that is not empty *)
| ReadError                          (* a file its reader cannot parse *)
| NoParquetFiles (extract_dir : string)  (* Exception("No parquet files found ...") *)
| KeyError (column : string)         (* a column that cannot be addressed *)
| UnboundLocalError (var : string)   (* a local read before it was assigned *)
| RuntimeError.                      (* "No active exception to reraise" *)

Inductive result (A : Type) : Type :=
| Ok (a : A)
| Raise (e : exn).
Arguments Ok {A} a.
Arguments Raise {A} e.

Definition is_ok {A} (r : result A) : bool :=
  match r with Ok _ => true | Raise _ => false end.

Definition rbind {A B} (r : result A) (k : A -> result B) : result B :=
  match r with
  | Ok a => k a
  | Raise e => Raise e
  end.

(** ** Tables *)

Definition cell : Type := option string.
Definition row : Type := list cell.

Record table : Type := Table { schema : list string; rows : list row }.

(** The positions at which a column name occurs in a schema. *)
Fixpoint positions (name : string) (cols : list string) (i : nat) : list nat :=
  match cols with
  | [] => []
  | c :: cols' =>
      if String.eqb c name then i :: positions name cols' (S i)
      else positions name cols' (S i)
  end.

(** [t[name]]: a column is addressed by a name that occurs exactly once in
    the schema; a name that is absent, or that occurs twice, is a
    [KeyError]. *)
Definition column_index (name : string) (cols : list string) : result nat :=
  match positions name cols 0 with
  | [i] => Ok i
  | _ => Raise (KeyError name)
  end.

(** The cell of a row in the column at position [i]. *)
Definition get (i : nat) (r : row) : cell := nth i r None.

(** [x == v] on one cell, as both [pc.equal] followed by [filter] and the
    pandas comparison followed by [sum] use it: a null is never equal. *)
Definition cell_is (v : string) (c : cell) : bool :=
  match c with
  | Some s => String.eqb s v
  | None => false
  end.

(** [x in options] on one cell, as [Series.isin] decides it. *)
Definition cell_in (options : list string) (c : cell) : bool :=
  match c with
  | Some s => existsb (String.eqb s) options
  | None => false
  end.

(** [t.filter(pc.equal(t[name], v))] *)
Definition filter_equal (t : table) (name v : string) : result table :=
  rbind (column_index name (schema t)) (fun i =>
  Ok (Table (schema t) (List.filter (fun r => cell_is v (get i r)) (rows t)))).

(** [df.loc[df[name].isin(options)]] *)
Definition loc_isin (df : table) (name : string) (options : list string)
  : result table :=
  rbind (column_index name (schema df)) (fun i =>
  Ok (Table (schema df) (List.filter (fun r => cell_in options (get i r)) (rows df)))).

(** ** Joins

    [pyarrow.Table.join(right_table, keys, right_keys=None,
    join_type="left outer", ..., coalesce_keys=True)]: an equality join on
    one key column of the same name on both sides.  The result has the
    columns of the left table followed by those of the right table without
    its key column.  A null key matches nothing.  With ["inner"] a left row
    without a match is dropped; with ["left outer"], the default, it is kept
    once, with nulls in the columns of the right table. *)

Inductive join_type : Type := Inner | LeftOuter.

Definition default_join_type : join_type := LeftOuter.

Fixpoint drop_nth {A} (i : nat) (l : list A) : list A :=
  match l, i with
  | [], _ => []
  | _ :: l', O => l'
  | x :: l', S i' => x :: drop_nth i' l'
  end.

Definition key_match (a b : cell) : bool :=
  match a, b with
  | Some x, Some y => String.eqb x y
  | _, _ => false
  end.

Definition matches (lk rk : nat) (l : row) (right : list row) : list row :=
  List.filter (fun r => key_match (get lk l) (get rk r)) right.

Definition join_row (jt : join_type) (lk rk nright : nat) (right : list row)
  (l : row) : list row :=
  match matches lk rk l right with
  | [] =>
      match jt with
      | Inner => []
      | LeftOuter => [l ++ repeat None nright]
      end
  | ms => map (fun r => l ++ drop_nth rk r) ms
  end.

Definition table_join (left right : table) (keys : string) (jt : join_type)
  : result table :=
  rbind (column_index keys (schema left)) (fun lk =>
  rbind (column_index keys (schema right)) (fun rk =>
  let right_cols := drop_nth rk (schema right) in
  Ok (Table (schema left ++ right_cols)
        (flat_map (join_row jt lk rk (length right_cols) (rows right))
           (rows left))))).

(** ** The file system *)

Inductive content : Type :=
| Parquet (t : table)                     (* a shard [pq.ParquetFile] reads as [t] *)
| Csv (t : table)                         (* delimited text its reader parses as [t] *)
| Zip (members : list (string * entry))   (* an archive, by the entries it extracts to *)
| Other                                   (* anything else *)
with entry : Type :=
| File (c : content)
| Folder.                                 (* a sub-directory; nothing looks inside *)

Definition path : Type := string * string.

Abbreviation directory := (gmap string entry).
Abbreviation filesystem := (gmap string (gmap string entry)).

Definition lookup_path (fs : filesystem) (p : path) : option entry :=
  match fs !! p.1 with
  | Some d => d !! p.2
  | None => None
  end.

(** ** The monad of code that uses the disk *)

Definition M (A : Type) : Type := filesystem -> result A * filesystem.

Definition ret {A} (a : A) : M A := fun fs => (Ok a, fs).
Definition raise {A} (e : exn) : M A := fun fs => (Raise e, fs).
Definition lift {A} (r : result A) : M A := fun fs => (r, fs).

Definition bind {A B} (m : M A) (k : A -> M B) : M B :=
  fun fs =>
    match m fs with
    | (Ok a, fs') => k a fs'
    | (Raise e, fs') => (Raise e, fs')
    end.

Declare Scope py_scope.
Delimit Scope py_scope with py.
Notation "x <- m ;; k" := (bind m (fun x => k))
  (at level 100, m at next level, right associativity) : py_scope.
Notation "m ;;; k" := (bind m (fun _ => k))
  (at level 100, right associativity) : py_scope.
Open Scope py_scope.

(** *** Readers *)

(** [zipfile.ZipFile(zip_path, 'r')] *)
Definition open_zip (p : path) : M (list (string * entry)) :=
  fun fs =>
    match lookup_path fs p with
    | None => (Raise FileNotFoundError, fs)
    | Some Folder => (Raise OSError, fs)
    | Some (File (Zip members)) => (Ok members, fs)
    | Some (File _) => (Raise BadZipFile, fs)
    end.

(** [pq.ParquetFile(path, thrift_string_size_limit=...).read()] *)
Definition read_parquet (p : path) : M table :=
  fun fs =>
    match lookup_path fs p with
    | None => (Raise FileNotFoundError, fs)
    | Some Folder => (Raise OSError, fs)
    | Some (File (Parquet t)) => (Ok t, fs)
    | Some (File _) => (Raise ReadError, fs)
    end.

(** [pd.read_csv(path)] and [pv.read_csv(path)] *)
Definition read_csv (p : path) : M table :=
  fun fs =>
    match lookup_path fs p with
    | None => (Raise FileNotFoundError, fs)
    | Some Folder => (Raise OSError, fs)
    | Some (File (Csv t)) => (Ok t, fs)
    | Some (File _) => (Raise ReadError, fs)
    end.

(** *** Writers *)

(** Writing a file: the directory must exist and the name must not be that
    of a sub-directory; an existing file is overwritten. *)
Definition write_file (p : path) (c : content) : M unit :=
  fun fs =>
    match fs !! p.1 with
    | None => (Raise FileNotFoundError, fs)
    | Some d =>
        match d !! p.2 with
        | Some Folder => (Raise OSError, fs)
        | _ => (Ok tt, <[p.1 := <[p.2 := File c]> d]> fs)
        end
    end.

(** [pv.write_csv(t, name)] *)
Definition write_csv (t : table) (p : path) : M unit := write_file p (Csv t).

(** [os.path.exists(d)] followed by [os.makedirs(d)] when it is false *)
Definition ensure_dir (d : string) : M unit :=
  fun fs =>
    match fs !! d with
    | Some _ => (Ok tt, fs)
    | None => (Ok tt, <[d := ∅]> fs)
    end.

(** One member of [ZipFile.extractall(d)]: a file member replaces a file of
    its name, a directory member joins a sub-directory of its name; a file
    where a directory is, or a directory where a file is, is an [OSError]. *)
Definition extract_member (d : string) (m : string * entry) : M unit :=
  fun fs =>
    let dir := default ∅ (fs !! d) in
    match m.2, dir !! m.1 with
    | File _, Some Folder => (Raise OSError, fs)
    | Folder, Some (File _) => (Raise OSError, fs)
    | e, _ => (Ok tt, <[d := <[m.1 := e]> dir]> fs)
    end.

(** [z.extractall(d)]: member after member; what was extracted before a
    failure stays on the disk. *)
Fixpoint extractall (d : string) (members : list (string * entry)) : M unit :=
  match members with
  | [] => ret tt
  | m :: members' => extract_member d m ;;; extractall d members'
  end.

(** [os.listdir(d)]: the names of the entries, in the order the directory
    happens to give them. *)
Definition listdir (d : string) : M (list string) :=
  fun fs =>
    match fs !! d with
    | None => (Raise FileNotFoundError, fs)
    | Some dir => (Ok (map fst (map_to_list dir)), fs)
    end.

(** [os.remove(p)] *)
Definition os_remove (p : path) : M unit :=
  fun fs =>
    match fs !! p.1 with
    | None => (Raise FileNotFoundError, fs)
    | Some d =>
        match d !! p.2 with
        | None => (Raise FileNotFoundError, fs)
        | Some Folder => (Raise OSError, fs)
        | Some (File _) => (Ok tt, <[p.1 := delete p.2 d]> fs)
        end
    end.

(** [os.rmdir(d)]: only an empty directory can be removed. *)
Definition os_rmdir (d : string) : M unit :=
  fun fs =>
    match fs !! d with
    | None => (Raise FileNotFoundError, fs)
    | Some dir =>
        if bool_decide (dir = ∅) then (Ok tt, delete d fs)
        else (Raise OSError, fs)
    end.

(** ** The stages of the pipeline *)

(** [f.endswith(suffix)] *)
Fixpoint endswith (s suffix : string) : bool :=
  String.eqb s suffix ||
  match s with
  | EmptyString => false
  | String _ s' => endswith s' suffix
  end.

(** Lines 10-50. *)
Definition extract_all_parquet_from_zip (zip_path : path) (extract_dir : string)
  : M (list path) :=
  ensure_dir extract_dir ;;;
  members <- open_zip zip_path ;;
  extractall extract_dir members ;;;
  names <- listdir extract_dir ;;
  let parquet_files :=
    map (fun f => (extract_dir, f))
      (List.filter (fun f => endswith f ".parquet") names) in
  if Nat.eqb (length parquet_files) 0
  then raise (NoParquetFiles extract_dir)
  else ret parquet_files.

(** The loop of lines 69-75: [parquet_dataset] is the local the loop
    assigns, unbound before the first iteration. *)
Fixpoint load_loop (parquet_files : list path) (parquet_dataset : option table)
  : M (option table) :=
  match parquet_files with
  | [] => ret parquet_dataset
  | parquet_file :: rest =>
      t <- read_parquet parquet_file ;;
      load_loop rest (Some t)
  end.

(** Lines 53-82. *)
Definition load_parquet_files (parquet_files : list path) : M table :=
  parquet_dataset <- load_loop parquet_files None ;;
  match parquet_dataset with
  | Some t => ret t
  | None => raise (UnboundLocalError "parquet_dataset")
  end.

Definition options : list string :=
  ["novel_acceptor"; "novel_exon_skip"; "novel_donor"].

(** Lines 85-109. *)
Definition filter_splice (splice_events_path : path) : M table :=
  splice_df <- read_csv splice_events_path ;;
  lift (loc_isin splice_df "junc_cat" options).

(** Lines 112-146.  [pa.Table.from_pandas] changes the representation, not
    the rows.  The first join names its type, the second one does not. *)
Definition join_datasets (parquet_table splice_events : table) (metadata : path)
  : M table :=
  let ds2 := splice_events in
  splice_joined_ds <- lift (table_join parquet_table ds2 "junction_coords" Inner) ;;
  ds3 <- read_csv metadata ;;
  lift (table_join splice_joined_ds ds3 "sample_name" default_join_type).

(** *** Aggregation *)

Record summary_row : Type := SummaryRow {
  genotype : string;
  cryptic_count : nat;
  TDP34_kd_associated : nat;
  rescueInduced : nat
}.

Definition summary : Type := list summary_row.

Fixpoint insert_sorted (x : string) (l : list string) : list string :=
  match l with
  | [] => [x]
  | y :: l' => if String.leb x y then x :: l else y :: insert_sorted x l'
  end.

Definition sort_keys (l : list string) : list string :=
  fold_right insert_sorted [] l.

Fixpoint non_null (col : list cell) : list string :=
  match col with
  | [] => []
  | Some s :: col' => s :: non_null col'
  | None :: col' => non_null col'
  end.

(** The keys of [groupby(name)]: the distinct values of the column, nulls
    left out ([dropna=True]), in sorted order ([sort=True]). *)
Definition group_keys (col : list cell) : list string :=
  sort_keys (nodup string_dec (non_null col)).

(** [(x == v).sum()] over the column at position [i] of a group *)
Definition count_is (v : string) (i : nat) (group : list row) : nat :=
  length (List.filter (fun r => cell_is v (get i r)) group).

(** [df.groupby('genotype').agg(cryptic_count=('genotype', 'size'),
    TDP34_kd_associated=('TDP43_kd', ...), rescueInduced=('rescueExpression', ...))] *)
Definition groupby_agg (df : table) : result summary :=
  rbind (column_index "genotype" (schema df)) (fun g =>
  rbind (column_index "TDP43_kd" (schema df)) (fun k =>
  rbind (column_index "rescueExpression" (schema df)) (fun r =>
  Ok (map (fun key =>
             let group := List.filter (fun x => cell_is key (get g x)) (rows df) in
             {| genotype := key;
                cryptic_count := length group;
                TDP34_kd_associated := count_is "siTDP43" k group;
                rescueInduced := count_is "rescueInduced" r group |})
        (group_keys (map (get g) (rows df))))))).

(** Lines 150-171.  [return counted_df] is the last statement of the [try]
    block.  The handler prints and ends, and the [raise] of line 171 stands
    after the whole [try] statement: it is reached only from the handler,
    where no exception is active any more. *)
Definition count_joined (joined_df : table) : result summary :=
  match groupby_agg joined_df with
  | Ok counted_df => Ok counted_df
  | Raise _ => Raise RuntimeError
  end.

(** *** The two condition filters *)

Definition unfiltered_csv : path := (".", "unfiltered_cryptic_data.csv").

(** Lines 175-207. *)
Definition filter_joined (joined_df : table) : M table :=
  filtered_df <- lift (filter_equal joined_df "TDP43_kd" "siTDP43") ;;
  write_csv filtered_df unfiltered_csv ;;;
  filtered2_df <- lift (filter_equal filtered_df "rescueExpression" "rescueInduced") ;;
  ret filtered2_df.

(** *** The orchestrator *)

(** The loop of lines 226-227. *)
Fixpoint remove_all (files : list path) : M unit :=
  match files with
  | [] => ret tt
  | file :: rest => os_remove file ;;; remove_all rest
  end.

(** Lines 211-235. *)
Definition process_data (zip_path splice_events sample_metadata : path)
  (extract_dir : string) : M (table * summary) :=
  parquet_files <- extract_all_parquet_from_zip zip_path extract_dir ;;
  parquet_dataset <- load_parquet_files parquet_files ;;
  filtered_df <- filter_splice splice_events ;;
  joined_df <- join_datasets parquet_dataset filtered_df sample_metadata ;;
  filtered_data_df <- filter_joined joined_df ;;
  counted_data_df <- lift (count_joined joined_df) ;;
  remove_all parquet_files ;;;
  os_rmdir extract_dir ;;;
  ret (filtered_data_df, counted_data_df).

(** *** The script, lines 238-253 *)

Definition zip_path : path := ("input_data", "hek_all_junctions.parquet.zip").
Definition splice_events_path : path := ("input_data", "splice_events.csv").
Definition sample_metadata_path : path := ("input_data", "metadata_halleger_hek.csv").
Definition default_extract_dir : string := "extracted_parquet".

Definition filtered_csv : path := (".", "filtered_data.csv").
Definition summary_csv : path := (".", "cryptic_summarisation.csv").

(** [counted_df.to_csv(name)]: the index, [genotype], leads; the counts are
    written in decimal. *)
Definition summary_table (s : summary) : table :=
  Table ["genotype"; "cryptic_count"; "TDP34_kd_associated"; "rescueInduced"]
    (map (fun r => [Some (genotype r);
                    Some (pretty (cryptic_count r));
                    Some (pretty (TDP34_kd_associated r));
                    Some (pretty (rescueInduced r))]) s).

Definition to_csv (s : summary) (p : path) : M unit :=
  write_file p (Csv (summary_table s)).

(** The body of the [try] of lines 242-250. *)
Definition script_body : M unit :=
  out <- process_data zip_path splice_events_path sample_metadata_path
           default_extract_dir ;;
  write_csv out.1 filtered_csv ;;;
  to_csv out.2 summary_csv.

(** The handler of lines 252-253 prints and does not raise: the script ends
    normally either way, and what it leaves behind is the file system. *)
Definition script (fs : filesystem) : filesystem := (script_body fs).2.

(** ** Notions the properties are stated with *)

(** The single pass the design document compares [filter_joined] with: both
    predicates at once, over the joined table. *)
Definition filter_single_pass (joined_df : table) : result table :=
  rbind (column_index "TDP43_kd" (schema joined_df)) (fun k =>
  rbind (column_index "rescueExpression" (schema joined_df)) (fun r =>
  Ok (Table (schema joined_df)
        (List.filter
           (fun x => cell_is "siTDP43" (get k x) && cell_is "rescueInduced" (get r x))
           (rows joined_df))))).

(** A file can be written at [p]: its directory exists and [p] is not a
    sub-directory. *)
Definition can_write (fs : filesystem) (p : path) : Prop :=
  exists d, fs !! p.1 = Some d /\ d !! p.2 <> Some Folder.

(** A name that ends in [.parquet]. *)
Definition parquet_name (f : string) : Prop :=
  exists stem, f = String.append stem ".parquet".

(** [m] does not change what the path [p] names. *)
Definition preserves {A} (p : path) (m : M A) : Prop :=
  forall fs, lookup_path (m fs).2 p = lookup_path fs p.

(** The number of rows that satisfy a predicate. *)
Definition count_rows (p : row -> bool) (l : list row) : nat :=
  length (List.filter p l).

(** A table is rectangular: every row has one cell for every column. *)
Definition rectangular (t : table) : Prop :=
  Forall (fun r => length r = length (schema t)) (rows t).

(** [m] never removes the directory [d]. *)
Definition keeps_dir {A} (d : string) (m : M A) : Prop :=
  forall fs, is_Some (fs !! d) -> is_Some ((m fs).2 !! d).

(** When [m] raises, the directory [d] is still there. *)
Definition raising_keeps_dir {A} (d : string) (m : M A) : Prop :=
  forall fs e fs',
    is_Some (fs !! d) -> m fs = (Raise e, fs') -> is_Some (fs' !! d).

(** The directory that results from putting the members of an archive into
    it, one after the other. *)
Definition insert_members (dir : directory) (members : list (string * entry))
  : directory :=
  fold_left (fun acc m => <[m.1 := m.2]> acc) members dir.

(** Two entries are both files or both sub-directories. *)
Definition same_kind (e e' : entry) : bool :=
  match e, e' with
  | File _, File _ => true
  | Folder, Folder => true
  | _, _ => false
  end.

(** The rows a summary accounts for. *)
Definition total_count (s : summary) : nat :=
  fold_right (fun r n => cryptic_count r + n) 0 s.

(** The row has a genotype, that is, a cell that is not null. *)
Definition has_value (i : nat) (r : row) : bool :=
  match get i r with
  | Some _ => true
  | None => false
  end.

(** ** Concrete inputs *)

Module Sample.

Definition measurements : table :=
  Table ["junction_coords"; "sample_name"; "cluster"]
    [[Some "coordsA"; Some "s1"; Some "c1"];
     [Some "coordsB"; Some "s1"; Some "c2"]].

Definition events : table :=
  Table ["junction_coords"; "junc_cat"]
    [[Some "coordsA"; Some "novel_acceptor"];
     [Some "coordsB"; Some "intron_retention"]].

Definition cryptic_events : table :=
  Table ["junction_coords"; "junc_cat"]
    [[Some "coordsA"; Some "novel_acceptor"]].

Definition metadata : table :=
  Table ["sample_name"; "genotype"; "TDP43_kd"; "rescueExpression"]
    [[Some "s1"; Some "KO"; Some "siTDP43"; Some "rescueInduced"]].

(** Metadata that describes another sample than the measured one. *)
Definition metadata_other_sample : table :=
  Table ["sample_name"; "genotype"; "TDP43_kd"; "rescueExpression"]
    [[Some "s2"; Some "KO"; Some "siTDP43"; Some "rescueInduced"]].

(** Metadata without the rescue column. *)
Definition metadata_no_rescue : table :=
  Table ["sample_name"; "genotype"; "TDP43_kd"]
    [[Some "s1"; Some "KO"; Some "siTDP43"]].

Definition joined : table :=
  Table ["junction_coords"; "sample_name"; "cluster"; "junc_cat";
         "genotype"; "TDP43_kd"; "rescueExpression"]
    [[Some "coordsA"; Some "s1"; Some "c1"; Some "novel_acceptor";
      Some "KO"; Some "siTDP43"; Some "rescueInduced"]].

Definition archive : content :=
  Zip [("hek.parquet", File (Parquet measurements))].

(** An archive with a member that is no shard and no [.parquet] member. *)
Definition archive_without_shard : content :=
  Zip [("README.txt", File Other)].

Definition archive_with_readme : content :=
  Zip [("README.txt", File Other); ("hek.parquet", File (Parquet measurements))].

Definition disk (zip : content) (meta : table) : filesystem :=
  <["." := ∅]>
    (<["input_data" :=
         <["hek_all_junctions.parquet.zip" := File zip]>
           (<["splice_events.csv" := File (Csv events)]>
              (<["metadata_halleger_hek.csv" := File (Csv meta)]> ∅))]> ∅).

(** A disk on which an earlier run left a shard behind. *)
Definition disk_with_leftover : filesystem :=
  <["extracted_parquet" := <["old.parquet" := File (Parquet measurements)]> ∅]>
    (disk archive_with_readme metadata).

Definition shards : filesystem :=
  <["extracted_parquet" :=
      <["a.parquet" := File (Parquet events)]>
        (<["b.parquet" := File (Parquet measurements)]> ∅)]> ∅.

End Sample.

(** * Properties *)

(** ** The monad *)

Lemma bind_ok {A B} (m : M A) (k : A -> M B) fs b fs' :
  bind m k fs = (Ok b, fs') ->
  exists a fs1, m fs = (Ok a, fs1) /\ k a fs1 = (Ok b, fs').
Proof.
  unfold bind. destruct (m fs) as [[a | e] fs1]; intros H.
  - exists a, fs1. split; [reflexivity | exact H].
  - discriminate H.
Qed.

Lemma bind_step {A B} (m : M A) (k : A -> M B) fs a fs1 :
  m fs = (Ok a, fs1) -> bind m k fs = k a fs1.
Proof. unfold bind. intros ->. reflexivity. Qed.

Lemma bind_raise {A B} (m : M A) (k : A -> M B) fs e fs1 :
  m fs = (Raise e, fs1) -> bind m k fs = (Raise e, fs1).
Proof. unfold bind. intros ->. reflexivity. Qed.

Lemma rbind_ok {A B} (r : result A) (k : A -> result B) b :
  rbind r k = Ok b -> exists a, r = Ok a /\ k a = Ok b.
Proof.
  destruct r as [a | e]; simpl; intros H.
  - exists a. split; [reflexivity | exact H].
  - discriminate H.
Qed.

Ltac bind_inv H :=
  let a := fresh "a" in
  let fs := fresh "fs" in
  let Ha := fresh "Hstep" in
  apply bind_ok in H; destruct H as (a & fs & Ha & H).

(** ** Cells and filters *)

Lemma cell_is_true v c : cell_is v c = true <-> c = Some v.
Proof.
  destruct c as [s |]; simpl.
  - rewrite String.eqb_eq. split; [intros -> | intros [= ->]]; reflexivity.
  - split; discriminate.
Qed.

Lemma cell_in_options c :
  cell_in options c = true <->
  c = Some "novel_acceptor" \/ c = Some "novel_exon_skip" \/ c = Some "novel_donor".
Proof.
  destruct c as [s |]; simpl.
  - rewrite !orb_true_iff, !String.eqb_eq. split.
    + intros [-> | [-> | [-> | H]]]; auto. discriminate H.
    + intros [[= ->] | [[= ->] | [= ->]]]; auto.
  - split; [discriminate | intros [H | [H | H]]; discriminate H].
Qed.

Lemma filter_filter {A} (p q : A -> bool) (l : list A) :
  List.filter q (List.filter p l) = List.filter (fun x => p x && q x) l.
Proof.
  induction l as [| x l IH]; simpl; [reflexivity |].
  destruct (p x); simpl; [destruct (q x) |]; rewrite IH; reflexivity.
Qed.

Lemma filter_length_le {A} (p : A -> bool) (l : list A) :
  length (List.filter p l) <= length l.
Proof.
  induction l as [| x l IH]; simpl; [lia |]. destruct (p x); simpl; lia.
Qed.

(** ** Reading *)

Lemma read_csv_ok fs p t :
  lookup_path fs p = Some (File (Csv t)) -> read_csv p fs = (Ok t, fs).
Proof. unfold read_csv. intros ->. reflexivity. Qed.

Lemma read_parquet_ok fs p t :
  lookup_path fs p = Some (File (Parquet t)) -> read_parquet p fs = (Ok t, fs).
Proof. unfold read_parquet. intros ->. reflexivity. Qed.

(** ** The event filter *)

(** C2.  When the classification file parses as a table with a [junc_cat]
    column, [filter_splice] returns normally, whatever categories occur, and
    a row is in its output exactly when it is a row of the file whose
    [junc_cat] is one of the three allowed strings; the output may be
    empty. *)
Theorem filter_splice_keeps_exactly_cryptic
  (fs : filesystem) (p : path) (df : table) (i : nat) :
  lookup_path fs p = Some (File (Csv df)) ->
  column_index "junc_cat" (schema df) = Ok i ->
  exists out,
    filter_splice p fs = (Ok out, fs) /\
    schema out = schema df /\
    forall r, In r (rows out) <->
              In r (rows df) /\
              (get i r = Some "novel_acceptor" \/
               get i r = Some "novel_exon_skip" \/
               get i r = Some "novel_donor").
Proof.
  intros Hfile Hcol.
  eexists. split; [| split].
  - unfold filter_splice. rewrite (bind_step _ _ _ _ _ (read_csv_ok _ _ _ Hfile)).
    unfold lift, loc_isin. rewrite Hcol. simpl. reflexivity.
  - reflexivity.
  - intros r. simpl. rewrite filter_In, cell_in_options. reflexivity.
Qed.

Lemma filter_splice_keeps_exactly_cryptic_witness :
  exists out,
    filter_splice splice_events_path (Sample.disk Sample.archive Sample.metadata)
    = (Ok out, Sample.disk Sample.archive Sample.metadata) /\
    schema out = schema Sample.events /\
    forall r, In r (rows out) <->
              In r (rows Sample.events) /\
              (get 1 r = Some "novel_acceptor" \/
               get 1 r = Some "novel_exon_skip" \/
               get 1 r = Some "novel_donor").
Proof.
  apply (filter_splice_keeps_exactly_cryptic
           (Sample.disk Sample.archive Sample.metadata)
           splice_events_path Sample.events 1).
  - vm_compute. reflexivity.
  - reflexivity.
Defined.

(** ** The loader *)

Lemma load_loop_last fs earlier last t acc :
  (forall p, In p earlier -> exists t', lookup_path fs p = Some (File (Parquet t'))) ->
  lookup_path fs last = Some (File (Parquet t)) ->
  load_loop (earlier ++ [last]) acc fs = (Ok (Some t), fs).
Proof.
  revert acc. induction earlier as [| p earlier IH]; intros acc Hall Hlast; simpl.
  - rewrite (bind_step _ _ _ _ _ (read_parquet_ok _ _ _ Hlast)). reflexivity.
  - destruct (Hall p (or_introl eq_refl)) as [t' Hp].
    rewrite (bind_step _ _ _ _ _ (read_parquet_ok _ _ _ Hp)).
    apply IH; [| exact Hlast]. intros q Hq. apply Hall. right. exact Hq.
Qed.

(** C3.  For a list of shard paths that ends in [last], all of which load,
    [load_parquet_files] returns the table of [last] and nothing else: the
    result is the same whatever the earlier shards hold. *)
Theorem load_parquet_files_returns_last_shard
  (fs : filesystem) (earlier : list path) (last : path) (t : table) :
  (forall p, In p earlier -> exists t', lookup_path fs p = Some (File (Parquet t'))) ->
  lookup_path fs last = Some (File (Parquet t)) ->
  load_parquet_files (earlier ++ [last]) fs = (Ok t, fs).
Proof.
  intros Hall Hlast. unfold load_parquet_files.
  rewrite (bind_step _ _ _ _ _ (load_loop_last fs earlier last t None Hall Hlast)).
  reflexivity.
Qed.

Lemma load_parquet_files_returns_last_shard_witness :
  load_parquet_files
    ([("extracted_parquet", "a.parquet")] ++ [("extracted_parquet", "b.parquet")])
    Sample.shards
  = (Ok Sample.measurements, Sample.shards).
Proof.
  apply (load_parquet_files_returns_last_shard Sample.shards
           [("extracted_parquet", "a.parquet")] ("extracted_parquet", "b.parquet")
           Sample.measurements).
  - intros p [<- | []]. exists Sample.events. vm_compute. reflexivity.
  - vm_compute. reflexivity.
Defined.

(** ** The condition filter *)

Lemma write_file_ok fs p c :
  can_write fs p ->
  exists d, fs !! p.1 = Some d /\
            write_file p c fs = (Ok tt, <[p.1 := <[p.2 := File c]> d]> fs).
Proof.
  intros (d & Hd & Hn). exists d. split; [exact Hd |].
  unfold write_file. rewrite Hd.
  destruct (d !! p.2) as [[c' |] |]; try reflexivity. congruence.
Qed.

(** C5.  Whenever the intermediate table can be written, [filter_joined]
    gives what the single pass with both predicates gives: the same table
    when the two columns exist, the same error when one is missing. *)
Theorem filter_joined_is_single_pass (joined_df : table) (fs : filesystem) :
  can_write fs unfiltered_csv ->
  (filter_joined joined_df fs).1 = filter_single_pass joined_df.
Proof.
  intros Hw. unfold filter_joined, filter_single_pass, filter_equal, lift.
  unfold bind at 1.
  destruct (column_index "TDP43_kd" (schema joined_df)) as [k | e]; simpl;
    [| reflexivity].
  destruct (write_file_ok fs unfiltered_csv
              (Csv (Table (schema joined_df)
                      (List.filter (fun r => cell_is "siTDP43" (get k r))
                         (rows joined_df)))) Hw) as (d & _ & Hwrite).
  unfold write_csv. rewrite (bind_step _ _ _ _ _ Hwrite).
  unfold bind, ret. simpl.
  destruct (column_index "rescueExpression" (schema joined_df)) as [r | e]; simpl;
    [| reflexivity].
  rewrite filter_filter. reflexivity.
Qed.

Lemma filter_joined_is_single_pass_witness :
  (filter_joined Sample.joined (Sample.disk Sample.archive Sample.metadata)).1
  = filter_single_pass Sample.joined.
Proof.
  apply (filter_joined_is_single_pass Sample.joined
           (Sample.disk Sample.archive Sample.metadata)).
  exists ∅. split; [vm_compute; reflexivity | vm_compute; discriminate].
Defined.

(** ** The aggregation *)

Lemma insert_sorted_perm x l : Permutation (x :: l) (insert_sorted x l).
Proof.
  induction l as [| y l IH]; simpl; [reflexivity |].
  destruct (String.leb x y); [reflexivity |].
  rewrite perm_swap. apply perm_skip. exact IH.
Qed.

Lemma sort_keys_perm l : Permutation l (sort_keys l).
Proof.
  induction l as [| x l IH]; simpl; [reflexivity |].
  rewrite <- insert_sorted_perm. apply perm_skip. exact IH.
Qed.

Lemma non_null_In key col : In key (non_null col) <-> In (Some key) col.
Proof.
  induction col as [| [s |] col IH]; simpl.
  - reflexivity.
  - rewrite IH. split; (intros [H | H]; [left | right; exact H]); congruence.
  - rewrite IH. split; [auto | intros [H | H]; [discriminate H | exact H]].
Qed.

Lemma group_keys_NoDup col : List.NoDup (group_keys col).
Proof.
  unfold group_keys.
  eapply Permutation_NoDup; [apply sort_keys_perm | apply NoDup_nodup].
Qed.

Lemma group_keys_In key col : In key (group_keys col) <-> In (Some key) col.
Proof.
  unfold group_keys. rewrite <- non_null_In. split; intros H.
  - apply (nodup_In string_dec).
    eapply Permutation_in; [symmetry; apply sort_keys_perm | exact H].
  - eapply Permutation_in; [apply sort_keys_perm |].
    apply (nodup_In string_dec). exact H.
Qed.

Lemma groupby_agg_genotypes df s :
  groupby_agg df = Ok s ->
  exists g, column_index "genotype" (schema df) = Ok g /\
            map genotype s = group_keys (map (get g) (rows df)).
Proof.
  unfold groupby_agg. intros H.
  apply rbind_ok in H. destruct H as (g & Hg & H).
  apply rbind_ok in H. destruct H as (k & _ & H).
  apply rbind_ok in H. destruct H as (r & _ & H).
  injection H as <-. exists g. split; [exact Hg |].
  rewrite map_map. simpl. apply map_id.
Qed.

(** C4.  On a joined table with the three columns, [count_joined] returns a
    summary with exactly one row for each genotype that occurs; its
    [cryptic_count] is the number of rows of that genotype, its
    [TDP34_kd_associated] the number of those with [TDP43_kd] equal to
    [siTDP43], its [rescueInduced] the number of those with
    [rescueExpression] equal to [rescueInduced]; neither exceeds
    [cryptic_count]. *)
Theorem count_joined_counts_per_genotype (df : table) (g k r : nat) :
  column_index "genotype" (schema df) = Ok g ->
  column_index "TDP43_kd" (schema df) = Ok k ->
  column_index "rescueExpression" (schema df) = Ok r ->
  exists s,
    count_joined df = Ok s /\
    List.NoDup (map genotype s) /\
    (forall key, In key (map genotype s) <->
                 exists x, In x (rows df) /\ get g x = Some key) /\
    (forall sr, In sr s ->
       cryptic_count sr
       = count_rows (fun x => cell_is (genotype sr) (get g x)) (rows df) /\
       TDP34_kd_associated sr
       = count_rows (fun x => cell_is (genotype sr) (get g x)
                              && cell_is "siTDP43" (get k x)) (rows df) /\
       rescueInduced sr
       = count_rows (fun x => cell_is (genotype sr) (get g x)
                              && cell_is "rescueInduced" (get r x)) (rows df) /\
       TDP34_kd_associated sr <= cryptic_count sr /\
       rescueInduced sr <= cryptic_count sr).
Proof.
  intros Hg Hk Hr.
  destruct (groupby_agg df) as [s | e] eqn:Hagg.
  2: { unfold groupby_agg in Hagg. rewrite Hg, Hk, Hr in Hagg. discriminate Hagg. }
  exists s. split; [unfold count_joined; rewrite Hagg; reflexivity |].
  destruct (groupby_agg_genotypes df s Hagg) as (g' & Hg' & Hkeys).
  rewrite Hg in Hg'. injection Hg' as <-.
  split; [rewrite Hkeys; apply group_keys_NoDup |]. split.
  - intros key. rewrite Hkeys, group_keys_In, in_map_iff.
    split; intros (x & H1 & H2); exists x; auto.
  - intros sr Hsr. unfold groupby_agg in Hagg. rewrite Hg, Hk, Hr in Hagg.
    simpl in Hagg. injection Hagg as <-.
    apply in_map_iff in Hsr. destruct Hsr as (key & <- & _). simpl.
    unfold count_is, count_rows. rewrite !filter_filter.
    repeat split; try reflexivity;
      rewrite <- filter_filter; apply filter_length_le.
Qed.

Lemma count_joined_counts_per_genotype_witness :
  exists s,
    count_joined Sample.joined = Ok s /\
    List.NoDup (map genotype s) /\
    (forall key, In key (map genotype s) <->
                 exists x, In x (rows Sample.joined) /\ get 4 x = Some key) /\
    (forall sr, In sr s ->
       cryptic_count sr
       = count_rows (fun x => cell_is (genotype sr) (get 4 x)) (rows Sample.joined) /\
       TDP34_kd_associated sr
       = count_rows (fun x => cell_is (genotype sr) (get 4 x)
                              && cell_is "siTDP43" (get 5 x)) (rows Sample.joined) /\
       rescueInduced sr
       = count_rows (fun x => cell_is (genotype sr) (get 4 x)
                              && cell_is "rescueInduced" (get 6 x)) (rows Sample.joined) /\
       TDP34_kd_associated sr <= cryptic_count sr /\
       rescueInduced sr <= cryptic_count sr).
Proof.
  apply (count_joined_counts_per_genotype Sample.joined 4 5 6); reflexivity.
Defined.

(** C8 as stated does not hold: on the joined table of the design
    document's first scenario the aggregation succeeds and [count_joined]
    returns, so not every call raises. *)
Lemma count_joined_returns_on_sample :
  ~ (forall df, exists e, count_joined df = Raise e).
Proof.
  intros H. destruct (H Sample.joined) as [e He].
  vm_compute in He. discriminate He.
Qed.

(** C8, amended.  [count_joined] returns the computed summary whenever the
    grouped aggregation succeeds, and it succeeds whenever the three columns
    can be addressed; [count_joined] raises only when the aggregation itself
    has raised. *)
Theorem count_joined_raises_only_on_failure (df : table) :
  (forall g k r,
     column_index "genotype" (schema df) = Ok g ->
     column_index "TDP43_kd" (schema df) = Ok k ->
     column_index "rescueExpression" (schema df) = Ok r ->
     exists s, groupby_agg df = Ok s /\ count_joined df = Ok s) /\
  (forall e, count_joined df = Raise e -> exists e0, groupby_agg df = Raise e0).
Proof.
  split.
  - intros g k r Hg Hk Hr. unfold count_joined, groupby_agg.
    rewrite Hg, Hk, Hr. simpl. eexists. split; reflexivity.
  - intros e. unfold count_joined.
    destruct (groupby_agg df) as [s | e0]; [discriminate |].
    intros _. exists e0. reflexivity.
Qed.

Lemma count_joined_raises_only_on_failure_witness :
  exists s, groupby_agg Sample.joined = Ok s /\ count_joined Sample.joined = Ok s.
Proof.
  apply (proj1 (count_joined_raises_only_on_failure Sample.joined) 4 5 6);
    reflexivity.
Defined.

(** ** The joins *)

Lemma join_row_inner_In lk rk n right l x :
  In x (join_row Inner lk rk n right l) ->
  exists r, In r right /\ key_match (get lk l) (get rk r) = true /\
            x = l ++ drop_nth rk r.
Proof.
  unfold join_row.
  destruct (matches lk rk l right) as [| m ms] eqn:Hm; [intros [] |].
  intros Hx. apply in_map_iff in Hx. destruct Hx as (r & <- & Hr).
  rewrite <- Hm in Hr. unfold matches in Hr. apply filter_In in Hr.
  exists r. tauto.
Qed.

(** A row of an inner join always comes with a row of the right table that
    has its key. *)
Lemma table_join_inner_matched left right keys out x :
  table_join left right keys Inner = Ok out ->
  In x (rows out) ->
  exists lk rk l r,
    column_index keys (schema left) = Ok lk /\
    column_index keys (schema right) = Ok rk /\
    In l (rows left) /\ In r (rows right) /\
    key_match (get lk l) (get rk r) = true /\
    x = l ++ drop_nth rk r.
Proof.
  unfold table_join. intros H Hx.
  apply rbind_ok in H. destruct H as (lk & Hlk & H).
  apply rbind_ok in H. destruct H as (rk & Hrk & H).
  injection H as <-. simpl in Hx. apply in_flat_map in Hx.
  destruct Hx as (l & Hl & Hx). apply join_row_inner_In in Hx.
  destruct Hx as (r & Hr & Hkey & ->). exists lk, rk, l, r. tauto.
Qed.

(** A left row without a match stays in a join of the default type, with
    nulls for every column of the right table. *)
Lemma table_join_default_keeps_unmatched left right keys lk rk l :
  column_index keys (schema left) = Ok lk ->
  column_index keys (schema right) = Ok rk ->
  In l (rows left) ->
  (forall r, In r (rows right) -> key_match (get lk l) (get rk r) = false) ->
  exists out,
    table_join left right keys default_join_type = Ok out /\
    In (l ++ repeat None (length (drop_nth rk (schema right)))) (rows out).
Proof.
  intros Hlk Hrk Hl Hno. unfold table_join. rewrite Hlk, Hrk. simpl.
  eexists. split; [reflexivity |]. simpl. apply in_flat_map.
  exists l. split; [exact Hl |]. unfold join_row.
  replace (matches lk rk l (rows right)) with (@nil row); [left; reflexivity |].
  unfold matches. symmetry.
  induction (rows right) as [| r rs IH]; simpl; [reflexivity |].
  rewrite (Hno r (or_introl eq_refl)). apply IH.
  intros r' Hr'. apply Hno. right. exact Hr'.
Qed.

(** C1 fails on the code.  The measured sample [s1] has no row in the
    metadata, and the second join, which names no join type, keeps its
    junction with nulls for [genotype], [TDP43_kd] and [rescueExpression]. *)
Theorem join_datasets_keeps_sample_without_metadata :
  join_datasets Sample.measurements Sample.cryptic_events sample_metadata_path
    (Sample.disk Sample.archive Sample.metadata_other_sample)
  = (Ok (Table ["junction_coords"; "sample_name"; "cluster"; "junc_cat";
                "genotype"; "TDP43_kd"; "rescueExpression"]
           [[Some "coordsA"; Some "s1"; Some "c1"; Some "novel_acceptor";
             None; None; None]]),
     Sample.disk Sample.archive Sample.metadata_other_sample).
Proof. vm_compute. reflexivity. Qed.

(** ** The file system *)

Lemma endswith_spec s suffix :
  endswith s suffix = true <-> exists stem, s = String.append stem suffix.
Proof.
  split.
  - induction s as [| c s IH]; cbn [endswith]; rewrite orb_true_iff.
    + intros [H | H]; [| discriminate H].
      apply String.eqb_eq in H. exists EmptyString. exact H.
    + intros [H | H].
      * apply String.eqb_eq in H. exists EmptyString. exact H.
      * destruct (IH H) as [stem ->]. exists (String c stem). reflexivity.
  - intros [stem ->]. induction stem as [| c stem IH].
    + change (String.append EmptyString suffix) with suffix.
      destruct suffix; cbn [endswith]; rewrite String.eqb_refl; reflexivity.
    + change (String.append (String c stem) suffix)
        with (String c (String.append stem suffix)).
      cbn [endswith]. rewrite IH. apply orb_true_r.
Qed.

Lemma lookup_path_insert_other (fs : filesystem) d (dir : directory) p :
  p.1 <> d -> lookup_path (<[d := dir]> fs) p = lookup_path fs p.
Proof.
  intros Hne. unfold lookup_path. rewrite lookup_insert_ne; [reflexivity | auto].
Qed.

Lemma lookup_path_insert_same (fs : filesystem) d (dir : directory) f :
  lookup_path (<[d := dir]> fs) (d, f) = dir !! f.
Proof. unfold lookup_path. simpl. rewrite lookup_insert_eq. reflexivity. Qed.

Lemma ensure_dir_spec d fs :
  exists fs1, ensure_dir d fs = (Ok tt, fs1) /\
              is_Some (fs1 !! d) /\
              forall p, lookup_path fs1 p = lookup_path fs p.
Proof.
  unfold ensure_dir. destruct (fs !! d) as [dir |] eqn:Hd.
  - exists fs. rewrite Hd. eauto.
  - eexists. split; [reflexivity |]. split.
    + rewrite lookup_insert_eq. eauto.
    + intros [d' f]. unfold lookup_path. simpl.
      destruct (decide (d = d')) as [<- | Hne].
      * rewrite lookup_insert_eq, Hd. apply lookup_empty.
      * rewrite lookup_insert_ne; [reflexivity | exact Hne].
Qed.

Lemma open_zip_inv p fs members fs' :
  open_zip p fs = (Ok members, fs') ->
  fs' = fs /\ lookup_path fs p = Some (File (Zip members)).
Proof.
  unfold open_zip.
  destruct (lookup_path fs p) as [[[] |] |]; intros H; inversion H; auto.
Qed.

Lemma extract_member_ok d m fs fs' :
  extract_member d m fs = (Ok tt, fs') ->
  fs' = <[d := <[m.1 := m.2]> (default ∅ (fs !! d))]> fs.
Proof.
  unfold extract_member. destruct m as [f e]. simpl.
  destruct e, (default ∅ (fs !! d) !! f) as [[] |]; intros H; inversion H;
    reflexivity.
Qed.

Lemma extract_member_frame d m fs p :
  p.1 <> d -> lookup_path (extract_member d m fs).2 p = lookup_path fs p.
Proof.
  intros Hne. unfold extract_member. destruct m as [f e]. simpl.
  destruct e, (default ∅ (fs !! d) !! f) as [[] |]; simpl;
    try reflexivity; apply lookup_path_insert_other; exact Hne.
Qed.

Lemma extractall_frame d members fs p :
  p.1 <> d -> lookup_path (extractall d members fs).2 p = lookup_path fs p.
Proof.
  intros Hne. revert fs. induction members as [| m members IH]; intros fs; simpl.
  - reflexivity.
  - unfold bind.
    pose proof (extract_member_frame d m fs p Hne) as Hm.
    destruct (extract_member d m fs) as [[[] | e] fs1]; simpl in *.
    + rewrite IH. exact Hm.
    + exact Hm.
Qed.

Lemma lookup_path_default (fs : filesystem) d f :
  lookup_path fs (d, f) = default ∅ (fs !! d) !! f.
Proof.
  unfold lookup_path. simpl. destruct (fs !! d); simpl;
    [reflexivity | symmetry; apply lookup_empty].
Qed.

(** What a successful [extractall] leaves in the directory: every entry
    that was there, whether replaced or not, and every member. *)
Lemma extractall_ok d members fs fs' :
  extractall d members fs = (Ok tt, fs') ->
  (is_Some (fs !! d) -> is_Some (fs' !! d)) /\
  (forall f, is_Some (lookup_path fs (d, f)) -> is_Some (lookup_path fs' (d, f))) /\
  (forall f e, In (f, e) members -> is_Some (lookup_path fs' (d, f))).
Proof.
  revert fs. induction members as [| m members IH]; intros fs H; simpl in H.
  - injection H as <-. split; [auto |]. split; [auto | intros f e []].
  - bind_inv H. destruct a. apply extract_member_ok in Hstep.
    destruct (IH _ H) as (Hdir & Hold & Hnew).
    assert (Hkeep : forall f, is_Some (lookup_path fs (d, f)) ->
                              is_Some (lookup_path fs0 (d, f))).
    { intros f Hf. rewrite Hstep, lookup_path_insert_same.
      rewrite lookup_path_default in Hf.
      destruct (decide (m.1 = f)) as [<- | Hne].
      - rewrite lookup_insert_eq. eauto.
      - rewrite lookup_insert_ne; [exact Hf | exact Hne]. }
    split; [| split].
    + intros _. apply Hdir. rewrite Hstep, lookup_insert_eq. eauto.
    + intros f Hf. apply Hold, Hkeep, Hf.
    + intros f e [-> | Hin]; [| eapply Hnew; exact Hin].
      apply Hold. rewrite Hstep, lookup_path_insert_same. simpl.
      rewrite lookup_insert_eq. eauto.
Qed.

Lemma listdir_inv d fs names fs' :
  listdir d fs = (Ok names, fs') ->
  fs' = fs /\ forall f, In f names <-> is_Some (lookup_path fs (d, f)).
Proof.
  unfold listdir, lookup_path. simpl.
  destruct (fs !! d) as [dir |]; [| discriminate].
  intros H. injection H as <- <-. split; [reflexivity |].
  intros f. rewrite in_map_iff. split.
  - intros ([f' e] & <- & Hin). apply list_elem_of_In in Hin.
    apply elem_of_map_to_list in Hin. simpl. eauto.
  - intros [e He]. exists (f, e). split; [reflexivity |].
    apply list_elem_of_In, elem_of_map_to_list. exact He.
Qed.

Lemma listdir_ok d fs :
  is_Some (fs !! d) -> exists names, listdir d fs = (Ok names, fs).
Proof. intros [dir Hd]. unfold listdir. rewrite Hd. eauto. Qed.

(** ** The extractor *)

(** The shard list [extract_all_parquet_from_zip] builds from a listing. *)
Lemma shard_list_In (d : string) (names : list string) (p : path) :
  In p (map (fun f => (d, f)) (List.filter (fun f => endswith f ".parquet") names))
  <-> p.1 = d /\ In p.2 names /\ parquet_name p.2.
Proof.
  unfold parquet_name. split.
  - intros H. apply in_map_iff in H. destruct H as (f & <- & Hf).
    apply filter_In in Hf. destruct Hf as [Hin Hend]. simpl.
    apply endswith_spec in Hend. auto.
  - intros (<- & Hin & Hend). apply in_map_iff.
    exists p.2. split; [destruct p; reflexivity |].
    apply filter_In. split; [exact Hin | apply endswith_spec; exact Hend].
Qed.

(** The run of the extractor once the archive has opened and its members
    have been extracted. *)
Lemma extract_run zip d fs members fs2 :
  lookup_path fs zip = Some (File (Zip members)) ->
  extractall d members (ensure_dir d fs).2 = (Ok tt, fs2) ->
  exists names,
    listdir d fs2 = (Ok names, fs2) /\
    extract_all_parquet_from_zip zip d fs
    = let parquet_files :=
        map (fun f => (d, f)) (List.filter (fun f => endswith f ".parquet") names) in
      if Nat.eqb (length parquet_files) 0
      then (Raise (NoParquetFiles d), fs2)
      else (Ok parquet_files, fs2).
Proof.
  intros Hzip Hext.
  destruct (ensure_dir_spec d fs) as (fs1 & He & Hdir & Hsame).
  rewrite He in Hext. simpl in Hext.
  destruct (extractall_ok _ _ _ _ Hext) as (Hdir2 & _ & _).
  destruct (listdir_ok d fs2 (Hdir2 Hdir)) as [names Hls].
  exists names. split; [exact Hls |].
  unfold extract_all_parquet_from_zip.
  rewrite (bind_step _ _ _ _ _ He).
  assert (Hopen : open_zip zip fs1 = (Ok members, fs1)).
  { unfold open_zip. rewrite Hsame, Hzip. reflexivity. }
  rewrite (bind_step _ _ _ _ _ Hopen), (bind_step _ _ _ _ _ Hext),
    (bind_step _ _ _ _ _ Hls).
  simpl. destruct (Nat.eqb _ 0); reflexivity.
Qed.

(** What a successful call of the extractor has done. *)
Lemma extract_ok_inv zip d fs files fs' :
  extract_all_parquet_from_zip zip d fs = (Ok files, fs') ->
  exists members,
    lookup_path fs zip = Some (File (Zip members)) /\
    extractall d members (ensure_dir d fs).2 = (Ok tt, fs') /\
    files <> [] /\
    forall p, In p files <->
              p.1 = d /\ is_Some (lookup_path fs' p) /\ parquet_name p.2.
Proof.
  intros H. unfold extract_all_parquet_from_zip in H.
  destruct (ensure_dir_spec d fs) as (fs1 & He & _ & Hsame).
  bind_inv H. rewrite He in Hstep. injection Hstep as <- <-.
  bind_inv H. apply open_zip_inv in Hstep. destruct Hstep as [-> Hzip].
  rewrite Hsame in Hzip.
  bind_inv H. destruct a0.
  bind_inv H. apply listdir_inv in Hstep0. destruct Hstep0 as [-> Hnames].
  exists a. split; [exact Hzip |]. rewrite He. simpl.
  simpl in H.
  destruct (Nat.eqb _ 0) eqn:Hlen; [discriminate H |].
  injection H as <- <-. split; [exact Hstep |]. split.
  - intros Hnil. rewrite Hnil in Hlen. discriminate Hlen.
  - intros p. rewrite shard_list_In, Hnames.
    split; intros (Hd & Hp & Hend); (split; [exact Hd |]); (split; [| exact Hend]);
      destruct p as [d' f]; simpl in *; subst d'; exact Hp.
Qed.

(** C9.  The extractor never returns an empty list; when the archive opens,
    its members extract, and no entry of the extraction directory has a name
    that ends in [.parquet], the call raises. *)
Theorem extract_without_shard_raises
  (zip : path) (d : string) (fs : filesystem) :
  (forall fs', extract_all_parquet_from_zip zip d fs <> (Ok [], fs')) /\
  (forall members fs2,
     lookup_path fs zip = Some (File (Zip members)) ->
     extractall d members (ensure_dir d fs).2 = (Ok tt, fs2) ->
     (forall f, is_Some (lookup_path fs2 (d, f)) -> ~ parquet_name f) ->
     extract_all_parquet_from_zip zip d fs = (Raise (NoParquetFiles d), fs2)).
Proof.
  split.
  - intros fs' H. apply extract_ok_inv in H.
    destruct H as (_ & _ & _ & Hne & _). apply Hne. reflexivity.
  - intros members fs2 Hzip Hext Hnone.
    destruct (extract_run zip d fs members fs2 Hzip Hext) as (names & Hls & ->).
    apply listdir_inv in Hls. destruct Hls as [_ Hnames].
    simpl.
    destruct (map _ _) as [| p ps] eqn:Hfiles; [reflexivity |].
    exfalso.
    assert (Hp : In p (p :: ps)) by (left; reflexivity).
    rewrite <- Hfiles in Hp. apply shard_list_In in Hp.
    destruct Hp as (Hd & Hin & Hend).
    apply (Hnone p.2); [| exact Hend]. apply Hnames. exact Hin.
Qed.

Lemma extract_without_shard_raises_witness :
  extract_all_parquet_from_zip zip_path default_extract_dir
    (Sample.disk Sample.archive_without_shard Sample.metadata)
  = (Raise (NoParquetFiles default_extract_dir),
     <[default_extract_dir := <["README.txt" := File Other]> ∅]>
       (Sample.disk Sample.archive_without_shard Sample.metadata)).
Proof.
  apply (proj2 (extract_without_shard_raises zip_path default_extract_dir
                  (Sample.disk Sample.archive_without_shard Sample.metadata))
           [("README.txt", File Other)]).
  - vm_compute. reflexivity.
  - vm_compute. reflexivity.
  - intros f [e He] [stem ->].
    unfold lookup_path in He. simpl in He.
    rewrite lookup_insert_eq in He.
    destruct (decide ("README.txt" = String.append stem ".parquet")) as [Heq | Hne].
    + assert (Hend : endswith "README.txt" ".parquet" = true)
        by (apply endswith_spec; exists stem; exact Heq).
      vm_compute in Hend. discriminate Hend.
    + rewrite lookup_insert_ne in He; [| exact Hne].
      rewrite lookup_empty in He. discriminate He.
Defined.

(** C10.  After a successful call the returned paths are exactly the
    entries of the extraction directory, as the extraction has left it,
    whose names end in [.parquet].  An entry of that kind that was in the
    directory before the call is among them, whether the archive has it or
    not; a member of the archive with another name is extracted and is not
    among them. *)
Theorem extract_lists_parquet_entries
  (zip : path) (d : string) (fs : filesystem) (files : list path)
  (fs' : filesystem) :
  extract_all_parquet_from_zip zip d fs = (Ok files, fs') ->
  (forall p, In p files <->
             p.1 = d /\ is_Some (lookup_path fs' p) /\ parquet_name p.2) /\
  (forall f, is_Some (lookup_path fs (d, f)) -> parquet_name f ->
             In (d, f) files) /\
  (exists members,
     lookup_path fs zip = Some (File (Zip members)) /\
     extractall d members (ensure_dir d fs).2 = (Ok tt, fs') /\
     forall f e, In (f, e) members ->
                 is_Some (lookup_path fs' (d, f)) /\
                 (~ parquet_name f -> ~ In (d, f) files)).
Proof.
  intros H. apply extract_ok_inv in H.
  destruct H as (members & Hzip & Hext & _ & Hfiles).
  destruct (ensure_dir_spec d fs) as (fs1 & He & _ & Hsame).
  rewrite He in Hext. simpl in Hext.
  destruct (extractall_ok _ _ _ _ Hext) as (_ & Hold & Hnew).
  split; [exact Hfiles |]. split.
  - intros f Hf Hend. apply Hfiles. simpl. split; [reflexivity |].
    split; [| exact Hend]. apply Hold. rewrite Hsame. exact Hf.
  - exists members. split; [exact Hzip |]. rewrite He. simpl.
    split; [exact Hext |]. intros f e Hin. split.
    + eapply Hnew. exact Hin.
    + intros Hnot Hf. apply Hfiles in Hf. simpl in Hf. tauto.
Qed.

Lemma extract_lists_parquet_entries_witness :
  In (default_extract_dir, "old.parquet")
    [(default_extract_dir, "old.parquet"); (default_extract_dir, "hek.parquet")].
Proof.
  assert (Hrun :
    extract_all_parquet_from_zip zip_path default_extract_dir
      Sample.disk_with_leftover
    = (Ok [(default_extract_dir, "old.parquet"); (default_extract_dir, "hek.parquet")],
       <[default_extract_dir :=
           <["hek.parquet" := File (Parquet Sample.measurements)]>
             (<["README.txt" := File Other]>
                (<["old.parquet" := File (Parquet Sample.measurements)]> ∅))]>
         Sample.disk_with_leftover))
    by (vm_compute; reflexivity).
  apply (proj1 (proj2 (extract_lists_parquet_entries _ _ _ _ _ Hrun)) "old.parquet").
  - vm_compute. eauto.
  - exists "old". reflexivity.
Defined.

(** ** The orchestrator *)

Lemma os_rmdir_ok d fs u fs' : os_rmdir d fs = (Ok u, fs') -> fs' = delete d fs.
Proof.
  unfold os_rmdir. destruct (fs !! d) as [dir |]; [| discriminate].
  destruct (bool_decide (dir = ∅)); intros H; inversion H. reflexivity.
Qed.

(** C7.  When [process_data] returns normally, the extraction directory no
    longer exists, and no path the extractor returned in that run names
    anything any more. *)
Theorem process_data_success_cleans_up
  (zip splice meta : path) (d : string) (fs : filesystem)
  (out : table * summary) (fs' : filesystem) :
  process_data zip splice meta d fs = (Ok out, fs') ->
  fs' !! d = None /\
  exists files fs1,
    extract_all_parquet_from_zip zip d fs = (Ok files, fs1) /\
    forall p, In p files -> lookup_path fs' p = None.
Proof.
  intros H. unfold process_data in H.
  bind_inv H. rename a into files, fs0 into fs1, Hstep into Hextract.
  do 7 (apply bind_ok in H; destruct H as (? & ? & ? & H)).
  injection H as _ <-.
  match goal with Hr : os_rmdir _ _ = _ |- _ => apply os_rmdir_ok in Hr; subst end.
  assert (Hgone : forall fs0 : filesystem, delete d fs0 !! d = None)
    by (intros; apply lookup_delete_eq).
  split; [apply Hgone |].
  exists files, fs1. split; [exact Hextract |].
  intros p Hp. apply extract_ok_inv in Hextract.
  destruct Hextract as (_ & _ & _ & _ & Hfiles).
  apply Hfiles in Hp. destruct Hp as (Hd & _).
  unfold lookup_path. rewrite Hd, Hgone. reflexivity.
Qed.

Lemma process_data_success_cleans_up_witness :
  (<["." := <["unfiltered_cryptic_data.csv" := File (Csv Sample.joined)]> ∅]>
     (Sample.disk Sample.archive Sample.metadata) : filesystem)
    !! default_extract_dir = None /\
  exists files fs1,
    extract_all_parquet_from_zip zip_path default_extract_dir
      (Sample.disk Sample.archive Sample.metadata) = (Ok files, fs1) /\
    forall p, In p files ->
      lookup_path
        (<["." := <["unfiltered_cryptic_data.csv" := File (Csv Sample.joined)]> ∅]>
           (Sample.disk Sample.archive Sample.metadata)) p = None.
Proof.
  apply (process_data_success_cleans_up zip_path splice_events_path
           sample_metadata_path default_extract_dir
           (Sample.disk Sample.archive Sample.metadata)
           (Sample.joined, [SummaryRow "KO" 1 1 1])).
  vm_compute. reflexivity.
Defined.

(** ** What a run leaves alone *)

Create HintDb frame.

Lemma preserves_ret {A} p (a : A) : preserves p (ret a).
Proof. intros fs. reflexivity. Qed.

Lemma preserves_raise {A} p e : preserves p (@raise A e).
Proof. intros fs. reflexivity. Qed.

Lemma preserves_lift {A} p (r : result A) : preserves p (lift r).
Proof. intros fs. reflexivity. Qed.

Lemma preserves_bind_ok {A B} p (m : M A) (k : A -> M B) :
  preserves p m ->
  (forall a fs fs1, m fs = (Ok a, fs1) ->
                    lookup_path (k a fs1).2 p = lookup_path fs1 p) ->
  preserves p (bind m k).
Proof.
  intros Hm Hk fs. unfold bind. specialize (Hm fs).
  destruct (m fs) as [[a | e] fs1] eqn:Hrun; simpl in *.
  - rewrite (Hk a fs fs1 Hrun). exact Hm.
  - exact Hm.
Qed.

Lemma preserves_bind {A B} p (m : M A) (k : A -> M B) :
  preserves p m -> (forall a, preserves p (k a)) -> preserves p (bind m k).
Proof.
  intros Hm Hk. apply preserves_bind_ok; [exact Hm |].
  intros a fs fs1 _. apply Hk.
Qed.

Lemma preserves_open_zip p q : preserves p (open_zip q).
Proof.
  intros fs. unfold open_zip.
  destruct (lookup_path fs q) as [[[] |] |]; reflexivity.
Qed.

Lemma preserves_read_parquet p q : preserves p (read_parquet q).
Proof.
  intros fs. unfold read_parquet.
  destruct (lookup_path fs q) as [[[] |] |]; reflexivity.
Qed.

Lemma preserves_read_csv p q : preserves p (read_csv q).
Proof.
  intros fs. unfold read_csv.
  destruct (lookup_path fs q) as [[[] |] |]; reflexivity.
Qed.

Lemma preserves_listdir p d : preserves p (listdir d).
Proof. intros fs. unfold listdir. destruct (fs !! d); reflexivity. Qed.

Lemma preserves_ensure_dir p d : preserves p (ensure_dir d).
Proof.
  intros fs. destruct (ensure_dir_spec d fs) as (fs1 & -> & _ & Hsame).
  apply Hsame.
Qed.

Lemma preserves_extractall p d members :
  p.1 <> d -> preserves p (extractall d members).
Proof. intros Hne fs. apply extractall_frame. exact Hne. Qed.

Lemma lookup_path_insert_entry (fs : filesystem) (dir : directory) q e p :
  fs !! q.1 = Some dir -> p <> q ->
  lookup_path (<[q.1 := <[q.2 := e]> dir]> fs) p = lookup_path fs p.
Proof.
  intros Hdir Hne. destruct p as [d f], q as [d' f']. unfold lookup_path.
  simpl in *. destruct (decide (d' = d)) as [-> | Hd].
  - rewrite lookup_insert_eq, Hdir. apply lookup_insert_ne. congruence.
  - rewrite lookup_insert_ne; [reflexivity | exact Hd].
Qed.

Lemma preserves_write_file p q c : p <> q -> preserves p (write_file q c).
Proof.
  intros Hne fs. unfold write_file.
  destruct (fs !! q.1) as [dir |] eqn:Hdir; [| reflexivity].
  destruct (dir !! q.2) as [[] |]; simpl;
    try reflexivity; apply lookup_path_insert_entry; assumption.
Qed.

Lemma preserves_os_remove p q : p.1 <> q.1 -> preserves p (os_remove q).
Proof.
  intros Hne fs. unfold os_remove.
  destruct (fs !! q.1) as [dir |]; [| reflexivity].
  destruct (dir !! q.2) as [[] |]; simpl; try reflexivity.
  apply lookup_path_insert_other. exact Hne.
Qed.

Lemma preserves_os_rmdir p d : p.1 <> d -> preserves p (os_rmdir d).
Proof.
  intros Hne fs. unfold os_rmdir.
  destruct (fs !! d) as [dir |]; [| reflexivity].
  destruct (bool_decide (dir = ∅)); simpl; [| reflexivity].
  unfold lookup_path. rewrite lookup_delete_ne; [reflexivity | auto].
Qed.

#[export] Hint Resolve preserves_ret preserves_raise preserves_lift
  preserves_open_zip preserves_read_parquet preserves_read_csv
  preserves_listdir preserves_ensure_dir preserves_extractall
  preserves_write_file preserves_os_remove preserves_os_rmdir : frame.

Lemma preserves_remove_all p files :
  (forall q, In q files -> p.1 <> q.1) -> preserves p (remove_all files).
Proof.
  induction files as [| q files IH]; intros Hall; simpl.
  - auto with frame.
  - apply preserves_bind.
    + apply preserves_os_remove, Hall. left. reflexivity.
    + intros _. apply IH. intros q' Hq'. apply Hall. right. exact Hq'.
Qed.

Lemma preserves_load_loop p files acc : preserves p (load_loop files acc).
Proof.
  revert acc. induction files as [| q files IH]; intros acc; simpl.
  - auto with frame.
  - apply preserves_bind; [auto with frame |]. intros t. apply IH.
Qed.

Lemma preserves_load_parquet_files p files :
  preserves p (load_parquet_files files).
Proof.
  apply preserves_bind; [apply preserves_load_loop |].
  intros [t |]; auto with frame.
Qed.

Lemma preserves_filter_splice p q : preserves p (filter_splice q).
Proof. apply preserves_bind; auto with frame. Qed.

Lemma preserves_join_datasets p t1 t2 q : preserves p (join_datasets t1 t2 q).
Proof.
  unfold join_datasets. apply preserves_bind; [auto with frame |].
  intros t. apply preserves_bind; auto with frame.
Qed.

Lemma preserves_filter_joined p t :
  p <> unfiltered_csv -> preserves p (filter_joined t).
Proof.
  intros Hne. unfold filter_joined, write_csv.
  repeat (apply preserves_bind; [auto with frame | intros ?]).
  auto with frame.
Qed.

Lemma preserves_extract p zip d :
  p.1 <> d -> preserves p (extract_all_parquet_from_zip zip d).
Proof.
  intros Hne. unfold extract_all_parquet_from_zip.
  repeat (apply preserves_bind; [auto with frame | intros ?]).
  destruct (Nat.eqb _ 0); auto with frame.
Qed.

#[export] Hint Resolve preserves_load_parquet_files preserves_filter_splice
  preserves_join_datasets preserves_filter_joined preserves_extract : frame.

(** A run of [process_data], whether it returns or raises, changes nothing
    outside the extraction directory but the intermediate table. *)
Lemma preserves_process_data p zip splice meta d :
  p.1 <> d -> p <> unfiltered_csv ->
  preserves p (process_data zip splice meta d).
Proof.
  intros Hd Hne. unfold process_data.
  apply preserves_bind_ok; [auto with frame |].
  intros files fs fs1 Hextract.
  apply extract_ok_inv in Hextract.
  destruct Hextract as (_ & _ & _ & _ & Hfiles).
  assert (Hin : forall q, In q files -> q.1 = d)
    by (intros q Hq; apply Hfiles in Hq; tauto).
  clear Hfiles. revert fs1.
  change (preserves p
    (parquet_dataset <- load_parquet_files files ;;
     filtered_df <- filter_splice splice ;;
     joined_df <- join_datasets parquet_dataset filtered_df meta ;;
     filtered_data_df <- filter_joined joined_df ;;
     counted_data_df <- lift (count_joined joined_df) ;;
     remove_all files ;;;
     os_rmdir d ;;;
     ret (filtered_data_df, counted_data_df))).
  do 5 (apply preserves_bind; [auto with frame | intros ?]).
  apply preserves_bind.
  - apply preserves_remove_all. intros q Hq. rewrite (Hin q Hq). exact Hd.
  - intros _. apply preserves_bind; auto with frame.
Qed.

(** ** Failing runs *)

(** C6 as stated does not hold.  With metadata that lacks the
    [rescueExpression] column the run fails in the second filter of
    [filter_joined], after line 192 has written the knockdown-only table:
    the run aborts and that table is on the disk. *)
Lemma failed_run_leaves_intermediate_table :
  ~ (forall fs e fs1,
       process_data zip_path splice_events_path sample_metadata_path
         default_extract_dir fs = (Raise e, fs1) ->
       forall p, In p [unfiltered_csv; filtered_csv; summary_csv] ->
                 lookup_path (script fs) p = lookup_path fs p).
Proof.
  intros H.
  assert (Hrun :
    process_data zip_path splice_events_path sample_metadata_path
      default_extract_dir (Sample.disk Sample.archive Sample.metadata_no_rescue)
    = (Raise (KeyError "rescueExpression"),
       (process_data zip_path splice_events_path sample_metadata_path
          default_extract_dir
          (Sample.disk Sample.archive Sample.metadata_no_rescue)).2))
    by (vm_compute; reflexivity).
  specialize (H _ _ _ Hrun unfiltered_csv (or_introl eq_refl)).
  vm_compute in H. discriminate H.
Qed.

(** C6, amended.  When [process_data] raises, the failure reaches the
    script, which then writes neither the final filtered table nor the
    summary table.  The knockdown-only table is another matter:
    [filter_joined] writes it as soon as the first predicate has been
    applied, whatever happens afterwards. *)
Theorem failed_run_writes_no_final_table :
  (forall fs e fs1,
     process_data zip_path splice_events_path sample_metadata_path
       default_extract_dir fs = (Raise e, fs1) ->
     script_body fs = (Raise e, fs1) /\
     lookup_path (script fs) filtered_csv = lookup_path fs filtered_csv /\
     lookup_path (script fs) summary_csv = lookup_path fs summary_csv) /\
  (forall joined_df fs t,
     filter_equal joined_df "TDP43_kd" "siTDP43" = Ok t ->
     can_write fs unfiltered_csv ->
     lookup_path (filter_joined joined_df fs).2 unfiltered_csv
     = Some (File (Csv t))).
Proof.
  split.
  - intros fs e fs1 Hrun.
    assert (Hbody : script_body fs = (Raise e, fs1))
      by (unfold script_body; apply bind_raise; exact Hrun).
    split; [exact Hbody |].
    unfold script. rewrite Hbody. simpl.
    replace fs1 with
      (process_data zip_path splice_events_path sample_metadata_path
         default_extract_dir fs).2 by (rewrite Hrun; reflexivity).
    split; apply preserves_process_data; simpl; discriminate.
  - intros joined_df fs t Hfilter Hw.
    unfold filter_joined, lift, write_csv. unfold bind at 1. rewrite Hfilter.
    destruct (write_file_ok fs unfiltered_csv (Csv t) Hw) as (d & _ & Hwrite).
    rewrite (bind_step _ _ _ _ _ Hwrite). unfold bind, ret.
    destruct (filter_equal t "rescueExpression" "rescueInduced"); simpl;
      unfold unfiltered_csv; simpl;
      rewrite lookup_path_insert_same; apply lookup_insert_eq.
Qed.

Lemma failed_run_writes_no_final_table_witness :
  lookup_path (script (Sample.disk Sample.archive Sample.metadata_no_rescue))
    filtered_csv
  = lookup_path (Sample.disk Sample.archive Sample.metadata_no_rescue) filtered_csv.
Proof.
  assert (Hrun :
    process_data zip_path splice_events_path sample_metadata_path
      default_extract_dir (Sample.disk Sample.archive Sample.metadata_no_rescue)
    = (Raise (KeyError "rescueExpression"),
       (process_data zip_path splice_events_path sample_metadata_path
          default_extract_dir
          (Sample.disk Sample.archive Sample.metadata_no_rescue)).2))
    by (vm_compute; reflexivity).
  apply (proj1 (proj2 (proj1 failed_run_writes_no_final_table _ _ _ Hrun))).
Defined.

(** * Further properties of the stages *)

(** ** The extractor *)

(** X1.  When the archive path names no archive, the extractor raises; by
    then it has made sure the extraction directory exists, and it has
    changed no entry of the disk. *)
Theorem extract_unopened_archive_raises
  (zip : path) (d : string) (fs : filesystem) :
  (forall members, lookup_path fs zip <> Some (File (Zip members))) ->
  exists e fs',
    extract_all_parquet_from_zip zip d fs = (Raise e, fs') /\
    is_Some (fs' !! d) /\
    forall p, lookup_path fs' p = lookup_path fs p.
Proof.
  intros Hno.
  destruct (ensure_dir_spec d fs) as (fs1 & He & Hdir & Hsame).
  assert (Hopen : exists e, open_zip zip fs1 = (Raise e, fs1)).
  { unfold open_zip. rewrite Hsame.
    destruct (lookup_path fs zip) as [[[t | t | members |] |] |] eqn:Hz; eauto.
    exfalso. apply (Hno members). reflexivity. }
  destruct Hopen as [e Hopen]. exists e, fs1. split; [| split; assumption].
  unfold extract_all_parquet_from_zip.
  rewrite (bind_step _ _ _ _ _ He). apply bind_raise. exact Hopen.
Qed.

Lemma extract_unopened_archive_raises_witness :
  exists e fs',
    extract_all_parquet_from_zip splice_events_path default_extract_dir
      (Sample.disk Sample.archive Sample.metadata) = (Raise e, fs') /\
    is_Some (fs' !! default_extract_dir) /\
    forall p, lookup_path fs' p
              = lookup_path (Sample.disk Sample.archive Sample.metadata) p.
Proof.
  apply (extract_unopened_archive_raises splice_events_path default_extract_dir
           (Sample.disk Sample.archive Sample.metadata)).
  intros members. vm_compute. discriminate.
Defined.

(** X2.  Whether it returns or raises, the extractor changes nothing
    outside the extraction directory. *)
Theorem extract_touches_only_its_directory
  (zip : path) (d : string) (fs : filesystem) (p : path) :
  p.1 <> d ->
  lookup_path (extract_all_parquet_from_zip zip d fs).2 p = lookup_path fs p.
Proof. intros Hne. apply preserves_extract. exact Hne. Qed.

Lemma extract_touches_only_its_directory_witness :
  lookup_path
    (extract_all_parquet_from_zip zip_path default_extract_dir
       (Sample.disk Sample.archive Sample.metadata)).2 zip_path
  = lookup_path (Sample.disk Sample.archive Sample.metadata) zip_path.
Proof.
  apply (extract_touches_only_its_directory zip_path default_extract_dir
           (Sample.disk Sample.archive Sample.metadata) zip_path).
  vm_compute. discriminate.
Defined.

Lemma extract_ok_listing zip d fs files fs' :
  extract_all_parquet_from_zip zip d fs = (Ok files, fs') ->
  exists dir,
    fs' !! d = Some dir /\
    files = map (fun f => (d, f))
              (List.filter (fun f => endswith f ".parquet")
                 (map fst (map_to_list dir))).
Proof.
  intros H. unfold extract_all_parquet_from_zip in H.
  do 4 (apply bind_ok in H; destruct H as (? & ? & ? & H)).
  match goal with
  | Hl : listdir _ _ = _ |- _ => unfold listdir in Hl;
      destruct (_ !! d) as [dir |] eqn:Hdir; [| discriminate Hl];
      injection Hl as <- <-
  end.
  simpl in H. destruct (Nat.eqb _ 0); [discriminate H |].
  injection H as <- <-. exists dir. split; [exact Hdir | reflexivity].
Qed.

(** X3.  The paths a successful call returns are pairwise distinct. *)
Theorem extract_returns_distinct_paths
  (zip : path) (d : string) (fs : filesystem) (files : list path)
  (fs' : filesystem) :
  extract_all_parquet_from_zip zip d fs = (Ok files, fs') ->
  List.NoDup files.
Proof.
  intros H. apply extract_ok_listing in H. destruct H as (dir & _ & ->).
  apply Finite.Injective_map_NoDup.
  - intros f1 f2 Heq. injection Heq as ->. reflexivity.
  - apply List.NoDup_filter, NoDup_ListNoDup, NoDup_fst_map_to_list.
Qed.

Lemma extract_returns_distinct_paths_witness :
  List.NoDup
    [(default_extract_dir, "old.parquet"); (default_extract_dir, "hek.parquet")].
Proof.
  assert (Hrun :
    extract_all_parquet_from_zip zip_path default_extract_dir
      Sample.disk_with_leftover
    = (Ok [(default_extract_dir, "old.parquet"); (default_extract_dir, "hek.parquet")],
       (extract_all_parquet_from_zip zip_path default_extract_dir
          Sample.disk_with_leftover).2))
    by (vm_compute; reflexivity).
  apply (extract_returns_distinct_paths _ _ _ _ _ Hrun).
Defined.

(** ** The loader *)

Lemma read_parquet_inv p fs t fs' :
  read_parquet p fs = (Ok t, fs') ->
  fs' = fs /\ lookup_path fs p = Some (File (Parquet t)).
Proof.
  unfold read_parquet.
  destruct (lookup_path fs p) as [[[] |] |]; intros H; inversion H; auto.
Qed.

Lemma load_loop_inv files acc fs r fs' :
  load_loop files acc fs = (Ok r, fs') ->
  fs' = fs /\
  ((files = [] /\ r = acc) \/
   exists earlier last t,
     files = earlier ++ [last] /\ r = Some t /\
     lookup_path fs last = Some (File (Parquet t)) /\
     forall p, In p earlier ->
               exists t', lookup_path fs p = Some (File (Parquet t'))).
Proof.
  revert acc. induction files as [| p files IH]; intros acc H; simpl in H.
  - injection H as <- <-. auto.
  - apply bind_ok in H. destruct H as (t0 & fs1 & Hread & H).
    apply read_parquet_inv in Hread. destruct Hread as [-> Hp].
    destruct (IH _ H) as [-> [[-> ->] | (earlier & last & t & -> & -> & Hlast & Hall)]];
      (split; [reflexivity |]); right.
    + exists [], p, t0. repeat split; [exact Hp | intros q []].
    + exists (p :: earlier), last, t. repeat split; [exact Hlast |].
      intros q [<- | Hq]; [eauto | apply Hall; exact Hq].
Qed.

(** X4.  The loader returns a table only from shards: on an empty list it
    raises, the loop never having assigned the table that line 78 returns;
    and when it returns, the list is not empty, all its shards have loaded,
    the table is that of the last one, and the disk is as before. *)
Theorem load_parquet_files_returns_a_last_shard
  (files : list path) (fs : filesystem) :
  load_parquet_files [] fs = (Raise (UnboundLocalError "parquet_dataset"), fs) /\
  forall t fs',
    load_parquet_files files fs = (Ok t, fs') ->
    fs' = fs /\
    exists earlier last,
      files = earlier ++ [last] /\
      lookup_path fs last = Some (File (Parquet t)) /\
      forall p, In p earlier ->
                exists t', lookup_path fs p = Some (File (Parquet t')).
Proof.
  split; [reflexivity |]. intros t fs' H. unfold load_parquet_files in H.
  apply bind_ok in H. destruct H as (r & fs1 & Hloop & H).
  apply load_loop_inv in Hloop.
  destruct Hloop as [-> [[-> ->] | (earlier & last & t0 & -> & -> & Hlast & Hall)]].
  - discriminate H.
  - unfold ret in H. injection H as <- <-. split; [reflexivity |].
    exists earlier, last. auto.
Qed.

Lemma load_parquet_files_returns_a_last_shard_witness :
  (Sample.shards : filesystem) = Sample.shards /\
  exists earlier last,
    [("extracted_parquet", "a.parquet"); ("extracted_parquet", "b.parquet")]
    = earlier ++ [last] /\
    lookup_path Sample.shards last = Some (File (Parquet Sample.measurements)) /\
    forall p, In p earlier ->
              exists t', lookup_path Sample.shards p = Some (File (Parquet t')).
Proof.
  apply (proj2 (load_parquet_files_returns_a_last_shard
                  [("extracted_parquet", "a.parquet");
                   ("extracted_parquet", "b.parquet")] Sample.shards)
           Sample.measurements Sample.shards).
  vm_compute. reflexivity.
Defined.

Lemma load_loop_bad fs before bad after acc :
  (forall p, In p before -> exists t, lookup_path fs p = Some (File (Parquet t))) ->
  (forall t, lookup_path fs bad <> Some (File (Parquet t))) ->
  exists e, load_loop (before ++ bad :: after) acc fs = (Raise e, fs).
Proof.
  revert acc. induction before as [| p before IH]; intros acc Hall Hbad; simpl.
  - assert (Hread : exists e, read_parquet bad fs = (Raise e, fs)).
    { unfold read_parquet.
      destruct (lookup_path fs bad) as [[[t | t | members |] |] |]; eauto.
      exfalso. apply (Hbad t). reflexivity. }
    destruct Hread as [e Hread]. exists e. apply bind_raise. exact Hread.
  - destruct (Hall p (or_introl eq_refl)) as [t Hp].
    rewrite (bind_step _ _ _ _ _ (read_parquet_ok _ _ _ Hp)).
    apply IH; [| exact Hbad]. intros q Hq. apply Hall. right. exact Hq.
Qed.

(** X5.  A shard that does not load makes the whole load raise, wherever it
    stands in the list: every shard is read, though only the last one is
    kept. *)
Theorem load_parquet_files_bad_shard_raises
  (fs : filesystem) (before : list path) (bad : path) (after : list path) :
  (forall p, In p before -> exists t, lookup_path fs p = Some (File (Parquet t))) ->
  (forall t, lookup_path fs bad <> Some (File (Parquet t))) ->
  exists e, load_parquet_files (before ++ bad :: after) fs = (Raise e, fs).
Proof.
  intros Hall Hbad.
  destruct (load_loop_bad fs before bad after None Hall Hbad) as [e He].
  exists e. unfold load_parquet_files. apply bind_raise. exact He.
Qed.

Lemma load_parquet_files_bad_shard_raises_witness :
  exists e,
    load_parquet_files
      ([("extracted_parquet", "a.parquet")] ++
       ("extracted_parquet", "missing.parquet") :: [("extracted_parquet", "b.parquet")])
      Sample.shards
    = (Raise e, Sample.shards).
Proof.
  apply (load_parquet_files_bad_shard_raises Sample.shards
           [("extracted_parquet", "a.parquet")]
           ("extracted_parquet", "missing.parquet")
           [("extracted_parquet", "b.parquet")]).
  - intros p [<- | []]. exists Sample.events. vm_compute. reflexivity.
  - intros t. vm_compute. discriminate.
Defined.

(** ** Stages that only read *)

Lemma load_loop_state files acc fs : (load_loop files acc fs).2 = fs.
Proof.
  revert acc. induction files as [| p files IH]; intros acc; simpl; [reflexivity |].
  unfold bind, read_parquet.
  destruct (lookup_path fs p) as [[[t | t | members |] |] |]; simpl;
    try reflexivity. apply IH.
Qed.

Lemma load_parquet_files_state files fs : (load_parquet_files files fs).2 = fs.
Proof.
  unfold load_parquet_files, bind.
  pose proof (load_loop_state files None fs) as Hl.
  destruct (load_loop files None fs) as [[[t |] | e] fs1]; simpl in *; exact Hl.
Qed.

Lemma filter_splice_state p fs : (filter_splice p fs).2 = fs.
Proof.
  unfold filter_splice, bind, read_csv, lift.
  destruct (lookup_path fs p) as [[[t | t | members |] |] |]; reflexivity.
Qed.

Lemma join_datasets_state t1 t2 q fs : (join_datasets t1 t2 q fs).2 = fs.
Proof.
  unfold join_datasets, bind, lift, read_csv.
  destruct (table_join t1 t2 "junction_coords" Inner); [| reflexivity].
  destruct (lookup_path fs q) as [[[t | t | members |] |] |]; reflexivity.
Qed.

(** X6.  Loading the shards, filtering the events and joining the tables
    read the disk and never change it, whether they return or raise. *)
Theorem reading_stages_leave_disk_unchanged
  (files : list path) (p q : path) (t1 t2 : table) (fs : filesystem) :
  (load_parquet_files files fs).2 = fs /\
  (filter_splice p fs).2 = fs /\
  (join_datasets t1 t2 q fs).2 = fs.
Proof.
  split; [apply load_parquet_files_state |].
  split; [apply filter_splice_state | apply join_datasets_state].
Qed.

(** ** Addressing a column *)

Lemma positions_In name cols k j :
  In j (positions name cols k) <->
  exists m, j = k + m /\ nth_error cols m = Some name.
Proof.
  revert k. induction cols as [| c cols IH]; intros k; simpl.
  - split; [intros [] | intros (m & _ & H); destruct m; discriminate H].
  - destruct (String.eqb_spec c name) as [-> | Hne]; simpl; rewrite IH; split.
    + intros [<- | (m & -> & Hm)].
      * exists 0. split; [lia | reflexivity].
      * exists (S m). split; [lia | exact Hm].
    + intros ([| m] & -> & Hm).
      * left. lia.
      * right. exists m. split; [lia | exact Hm].
    + intros (m & -> & Hm). exists (S m). split; [lia | exact Hm].
    + intros ([| m] & -> & Hm).
      * simpl in Hm. congruence.
      * exists m. split; [lia | exact Hm].
Qed.

(** A column that is addressed stands at its position and nowhere else. *)
Lemma column_index_ok name cols i :
  column_index name cols = Ok i ->
  nth_error cols i = Some name /\
  forall j, nth_error cols j = Some name -> j = i.
Proof.
  unfold column_index.
  destruct (positions name cols 0) as [| i' [| i'' l]] eqn:Hpos; try discriminate.
  intros [= ->]. split.
  - assert (Hin : In i (positions name cols 0)) by (rewrite Hpos; left; reflexivity).
    apply positions_In in Hin. destruct Hin as (m & -> & Hm). exact Hm.
  - intros j Hj.
    assert (Hin : In j (positions name cols 0))
      by (apply positions_In; exists j; split; [reflexivity | exact Hj]).
    rewrite Hpos in Hin. destruct Hin as [<- | []]. reflexivity.
Qed.

Lemma column_index_lt name cols i :
  column_index name cols = Ok i -> i < length cols.
Proof.
  intros H. apply column_index_ok in H. destruct H as [H _].
  apply nth_error_Some. congruence.
Qed.

Lemma column_index_absent name cols :
  ~ In name cols -> column_index name cols = Raise (KeyError name).
Proof.
  intros Hnot. unfold column_index.
  destruct (positions name cols 0) as [| i l] eqn:Hpos; [reflexivity |].
  exfalso. apply Hnot.
  assert (Hin : In i (positions name cols 0)) by (rewrite Hpos; left; reflexivity).
  apply positions_In in Hin. destruct Hin as (m & _ & Hm).
  eapply nth_error_In. exact Hm.
Qed.

Lemma column_index_raises name cols e :
  column_index name cols = Raise e -> e = KeyError name.
Proof.
  unfold column_index. destruct (positions name cols 0) as [| i [| i' l]];
    intros H; inversion H; reflexivity.
Qed.

(** ** The event filter *)

(** X7.  A classification file that parses as a table without a
    [junc_cat] column makes [filter_splice] raise the [KeyError] of that
    column; the disk is as before. *)
Theorem filter_splice_without_column_raises
  (fs : filesystem) (p : path) (df : table) :
  lookup_path fs p = Some (File (Csv df)) ->
  ~ In "junc_cat" (schema df) ->
  filter_splice p fs = (Raise (KeyError "junc_cat"), fs).
Proof.
  intros Hfile Hnot. unfold filter_splice.
  rewrite (bind_step _ _ _ _ _ (read_csv_ok _ _ _ Hfile)).
  unfold lift, loc_isin. rewrite (column_index_absent _ _ Hnot). reflexivity.
Qed.

Lemma filter_splice_without_column_raises_witness :
  filter_splice sample_metadata_path (Sample.disk Sample.archive Sample.metadata)
  = (Raise (KeyError "junc_cat"), Sample.disk Sample.archive Sample.metadata).
Proof.
  apply (filter_splice_without_column_raises
           (Sample.disk Sample.archive Sample.metadata) sample_metadata_path
           Sample.metadata).
  - vm_compute. reflexivity.
  - simpl. intros [H | [H | [H | [H | []]]]]; discriminate H.
Defined.

Lemma filter_idem {A} (p : A -> bool) (l : list A) :
  List.filter p (List.filter p l) = List.filter p l.
Proof.
  rewrite filter_filter. apply filter_ext. intros x. apply andb_diag.
Qed.

(** X8.  Filtering is idempotent: the table [filter_splice] returns is left
    as it is by the same category filter. *)
Theorem filter_splice_output_is_fixed_point
  (fs : filesystem) (p : path) (out : table) (fs' : filesystem) :
  filter_splice p fs = (Ok out, fs') ->
  loc_isin out "junc_cat" options = Ok out.
Proof.
  intros H. unfold filter_splice in H. bind_inv H.
  unfold lift in H. injection H as H _. unfold loc_isin in H.
  apply rbind_ok in H. destruct H as (i & Hi & H). injection H as <-.
  unfold loc_isin. simpl. rewrite Hi. simpl. rewrite filter_idem. reflexivity.
Qed.

Lemma filter_splice_output_is_fixed_point_witness :
  loc_isin Sample.cryptic_events "junc_cat" options = Ok Sample.cryptic_events.
Proof.
  apply (filter_splice_output_is_fixed_point
           (Sample.disk Sample.archive Sample.metadata) splice_events_path
           Sample.cryptic_events (Sample.disk Sample.archive Sample.metadata)).
  vm_compute. reflexivity.
Defined.

(** ** The joiner *)

Lemma filter_nil_all {A} (p : A -> bool) (l : list A) :
  List.filter p l = [] -> forall x, In x l -> p x = false.
Proof.
  induction l as [| a l IH]; simpl; intros H x []; destruct (p a) eqn:Hp;
    try discriminate H; subst; auto.
Qed.

Lemma key_match_true a b :
  key_match a b = true <-> exists coords, a = Some coords /\ b = Some coords.
Proof.
  destruct a as [x |], b as [y |]; simpl; split;
    try discriminate; try (intros (c & H1 & H2); discriminate).
  - intros H. apply String.eqb_eq in H. subst. eauto.
  - intros (c & [= ->] & [= ->]). apply String.eqb_refl.
Qed.

(** Where a row of a join comes from. *)
Lemma join_row_In jt lk rk n right l x :
  In x (join_row jt lk rk n right l) ->
  (exists r, In r right /\ key_match (get lk l) (get rk r) = true /\
             x = l ++ drop_nth rk r) \/
  (jt = LeftOuter /\ x = l ++ repeat None n /\
   forall r, In r right -> key_match (get lk l) (get rk r) = false).
Proof.
  unfold join_row.
  destruct (matches lk rk l right) as [| m ms] eqn:Hm.
  - destruct jt; [intros [] |]. intros [<- | []]. right.
    split; [reflexivity |]. split; [reflexivity |].
    apply (filter_nil_all _ _ Hm).
  - intros Hx. apply in_map_iff in Hx. destruct Hx as (r & <- & Hr).
    rewrite <- Hm in Hr. unfold matches in Hr. apply filter_In in Hr.
    left. exists r. tauto.
Qed.

Lemma table_join_inv left right keys jt out :
  table_join left right keys jt = Ok out ->
  exists lk rk,
    column_index keys (schema left) = Ok lk /\
    column_index keys (schema right) = Ok rk /\
    schema out = schema left ++ drop_nth rk (schema right) /\
    rows out = flat_map (join_row jt lk rk (length (drop_nth rk (schema right)))
                           (rows right)) (rows left).
Proof.
  unfold table_join. intros H.
  apply rbind_ok in H. destruct H as (lk & Hlk & H).
  apply rbind_ok in H. destruct H as (rk & Hrk & H).
  injection H as <-. exists lk, rk. auto.
Qed.

Lemma join_datasets_inv pt ev meta fs joined fs' :
  join_datasets pt ev meta fs = (Ok joined, fs') ->
  exists first md,
    table_join pt ev "junction_coords" Inner = Ok first /\
    lookup_path fs meta = Some (File (Csv md)) /\
    table_join first md "sample_name" LeftOuter = Ok joined.
Proof.
  unfold join_datasets, bind, lift, read_csv. intros H.
  destruct (table_join pt ev "junction_coords" Inner) as [first |]; [| discriminate].
  destruct (lookup_path fs meta) as [[[t | md | members |] |] |]; try discriminate.
  exists first, md. split; [reflexivity |]. split; [reflexivity |].
  unfold default_join_type in H.
  destruct (table_join first md "sample_name" LeftOuter); inversion H. reflexivity.
Qed.

Lemma drop_nth_length {A} i (l : list A) :
  i < length l -> length (drop_nth i l) = pred (length l).
Proof.
  revert i. induction l as [| a l IH]; intros i Hi; simpl in *; [lia |].
  destruct i as [| i]; simpl; [reflexivity |].
  rewrite IH by lia. lia.
Qed.

Lemma table_join_rectangular left right keys jt out :
  rectangular left -> rectangular right ->
  table_join left right keys jt = Ok out -> rectangular out.
Proof.
  unfold rectangular. rewrite !List.Forall_forall. intros Hl Hr H.
  apply table_join_inv in H. destruct H as (lk & rk & _ & Hrk & -> & ->).
  apply column_index_lt in Hrk.
  intros x Hx. apply in_flat_map in Hx. destruct Hx as (l & Hinl & Hx).
  rewrite length_app, <- (Hl l Hinl).
  apply join_row_In in Hx. destruct Hx as [(r & Hinr & _ & ->) | (_ & -> & _)].
  - rewrite length_app, !drop_nth_length; [| exact Hrk | rewrite (Hr r Hinr); exact Hrk].
    rewrite (Hr r Hinr). reflexivity.
  - rewrite length_app, repeat_length. reflexivity.
Qed.

(** X9.  The joins keep tables rectangular: when the measurement table, the
    event table and the metadata table have one cell per column in every
    row, so has the joined table. *)
Theorem join_datasets_keeps_tables_rectangular
  (pt ev : table) (meta : path) (fs : filesystem) (joined : table)
  (fs' : filesystem) :
  rectangular pt -> rectangular ev ->
  (forall md, lookup_path fs meta = Some (File (Csv md)) -> rectangular md) ->
  join_datasets pt ev meta fs = (Ok joined, fs') ->
  rectangular joined.
Proof.
  intros Hpt Hev Hmd H. apply join_datasets_inv in H.
  destruct H as (first & md & H1 & Hfile & H2).
  eapply table_join_rectangular; [| apply Hmd; exact Hfile | exact H2].
  eapply table_join_rectangular; [exact Hpt | exact Hev | exact H1].
Qed.

Lemma sample_tables_rectangular :
  rectangular Sample.measurements /\ rectangular Sample.cryptic_events /\
  rectangular Sample.metadata_other_sample.
Proof. unfold rectangular. repeat split; repeat constructor. Qed.

Lemma join_datasets_keeps_tables_rectangular_witness :
  rectangular
    (Table ["junction_coords"; "sample_name"; "cluster"; "junc_cat";
            "genotype"; "TDP43_kd"; "rescueExpression"]
       [[Some "coordsA"; Some "s1"; Some "c1"; Some "novel_acceptor";
         None; None; None]]).
Proof.
  apply (join_datasets_keeps_tables_rectangular
           Sample.measurements Sample.cryptic_events sample_metadata_path
           (Sample.disk Sample.archive Sample.metadata_other_sample) _
           (Sample.disk Sample.archive Sample.metadata_other_sample)).
  - apply sample_tables_rectangular.
  - apply sample_tables_rectangular.
  - intros md Hmd. vm_compute in Hmd. injection Hmd as <-.
    apply sample_tables_rectangular.
  - vm_compute. reflexivity.
Defined.

(** X10.  Every row of the joined table extends a measured row by the
    cells of a retained event with the same, non-null, junction
    coordinates: a junction without such an event is in no joined row. *)
Theorem joined_rows_match_an_event
  (pt ev : table) (meta : path) (fs : filesystem) (joined : table)
  (fs' : filesystem) (x : row) :
  join_datasets pt ev meta fs = (Ok joined, fs') ->
  In x (rows joined) ->
  exists lk rk l r coords rest,
    column_index "junction_coords" (schema pt) = Ok lk /\
    column_index "junction_coords" (schema ev) = Ok rk /\
    In l (rows pt) /\ In r (rows ev) /\
    get lk l = Some coords /\ get rk r = Some coords /\
    x = (l ++ drop_nth rk r) ++ rest.
Proof.
  intros H Hx. apply join_datasets_inv in H.
  destruct H as (first & md & H1 & _ & H2).
  apply table_join_inv in H1. destruct H1 as (lk & rk & Hlk & Hrk & _ & Hrows1).
  apply table_join_inv in H2. destruct H2 as (lk2 & rk2 & _ & _ & _ & Hrows2).
  rewrite Hrows2 in Hx. apply in_flat_map in Hx. destruct Hx as (y & Hy & Hx).
  rewrite Hrows1 in Hy. apply in_flat_map in Hy. destruct Hy as (l & Hl & Hy).
  apply join_row_In in Hy.
  destruct Hy as [(r & Hr & Hkey & ->) | (Hjt & _)]; [| discriminate Hjt].
  apply key_match_true in Hkey. destruct Hkey as (coords & Hkl & Hkr).
  apply join_row_In in Hx.
  destruct Hx as [(r2 & _ & _ & ->) | (_ & -> & _)];
    exists lk, rk, l, r, coords; eexists; repeat split; eauto.
Qed.

Lemma joined_rows_match_an_event_witness :
  exists lk rk l r coords rest,
    column_index "junction_coords" (schema Sample.measurements) = Ok lk /\
    column_index "junction_coords" (schema Sample.cryptic_events) = Ok rk /\
    In l (rows Sample.measurements) /\ In r (rows Sample.cryptic_events) /\
    get lk l = Some coords /\ get rk r = Some coords /\
    [Some "coordsA"; Some "s1"; Some "c1"; Some "novel_acceptor"; None; None; None]
    = (l ++ drop_nth rk r) ++ rest.
Proof.
  apply (joined_rows_match_an_event
           Sample.measurements Sample.cryptic_events sample_metadata_path
           (Sample.disk Sample.archive Sample.metadata_other_sample)
           (Table ["junction_coords"; "sample_name"; "cluster"; "junc_cat";
                   "genotype"; "TDP43_kd"; "rescueExpression"]
              [[Some "coordsA"; Some "s1"; Some "c1"; Some "novel_acceptor";
                None; None; None]])
           (Sample.disk Sample.archive Sample.metadata_other_sample)).
  - vm_compute. reflexivity.
  - left. reflexivity.
Defined.

Lemma nth_error_drop_nth {A} k (l : list A) c :
  c <> k ->
  nth_error (drop_nth k l) (if Nat.ltb c k then c else pred c) = nth_error l c.
Proof.
  revert k c. induction l as [| a l IH]; intros k c Hne.
  - destruct k; simpl; rewrite !nth_error_nil; reflexivity.
  - destruct k as [| k]; simpl.
    + destruct c as [| c]; [congruence | reflexivity].
    + destruct c as [| c]; [reflexivity |].
      specialize (IH k c ltac:(congruence)).
      change (Nat.ltb (S c) (S k)) with (Nat.ltb c k).
      destruct (Nat.ltb c k) eqn:Hlt; simpl; [exact IH |].
      destruct c as [| c]; [apply Nat.ltb_ge in Hlt; lia | exact IH].
Qed.

Lemma nth_error_middle {A} (a b c : list A) n v :
  nth_error b n = Some v -> nth_error ((a ++ b) ++ c) (length a + n) = Some v.
Proof.
  intros H.
  assert (Hn : n < length b) by (apply nth_error_Some; congruence).
  rewrite nth_error_app1 by (rewrite length_app; lia).
  rewrite nth_error_app2 by lia.
  replace (length a + n - length a) with n by lia. exact H.
Qed.

(** X11.  When every retained event is of an allowed category, so is every
    row of the joined table: the inner join on the junction coordinates
    brings the category of a matching event into each row.  (The tables are
    rectangular, and [junc_cat] can be addressed in the result.) *)
Theorem joined_rows_have_an_allowed_category
  (pt ev : table) (meta : path) (fs : filesystem) (joined : table)
  (fs' : filesystem) (c j : nat) :
  rectangular pt -> rectangular ev ->
  column_index "junc_cat" (schema ev) = Ok c ->
  (forall r, In r (rows ev) -> cell_in options (get c r) = true) ->
  join_datasets pt ev meta fs = (Ok joined, fs') ->
  column_index "junc_cat" (schema joined) = Ok j ->
  forall x, In x (rows joined) -> cell_in options (get j x) = true.
Proof.
  intros Hpt Hev Hc Hcat Hjoin Hj x Hx.
  destruct (joined_rows_match_an_event _ _ _ _ _ _ _ Hjoin Hx)
    as (lk & rk & l & r & coords & rest & Hlk & Hrk & Hl & Hr & _ & _ & ->).
  apply join_datasets_inv in Hjoin.
  destruct Hjoin as (first & md & H1 & _ & H2).
  apply table_join_inv in H1. destruct H1 as (lk' & rk' & Hlk' & Hrk' & Hs1 & _).
  rewrite Hlk in Hlk'. rewrite Hrk in Hrk'.
  injection Hlk' as <-. injection Hrk' as <-.
  apply table_join_inv in H2. destruct H2 as (lk2 & rk2 & _ & _ & Hs2 & _).
  rewrite Hs1 in Hs2.
  unfold rectangular in Hpt, Hev. rewrite List.Forall_forall in Hpt, Hev.
  pose proof (column_index_ok _ _ _ Hc) as [Hcn _].
  pose proof (column_index_ok _ _ _ Hrk) as [Hkn _].
  pose proof (column_index_ok _ _ _ Hj) as [_ Huniq].
  assert (Hne : c <> rk) by (intros ->; rewrite Hcn in Hkn; discriminate Hkn).
  set (c' := if Nat.ltb c rk then c else pred c).
  assert (Hj' : j = length (schema pt) + c').
  { symmetry. apply Huniq. rewrite Hs2. apply nth_error_middle.
    unfold c'. rewrite nth_error_drop_nth by exact Hne. exact Hcn. }
  assert (Hcell : nth_error r c = Some (get c r)).
  { apply nth_error_nth'. rewrite (Hev r Hr).
    apply nth_error_Some. congruence. }
  assert (Hxj : nth_error ((l ++ drop_nth rk r) ++ rest) j = Some (get c r)).
  { rewrite Hj', <- (Hpt l Hl). apply nth_error_middle.
    unfold c'. rewrite nth_error_drop_nth by exact Hne. exact Hcell. }
  assert (Hget : get j ((l ++ drop_nth rk r) ++ rest) = get c r)
    by (unfold get at 1; apply nth_error_nth; exact Hxj).
  rewrite Hget. apply Hcat. exact Hr.
Qed.

Lemma joined_rows_have_an_allowed_category_witness :
  cell_in options
    (get 3 [Some "coordsA"; Some "s1"; Some "c1"; Some "novel_acceptor";
            None; None; None]) = true.
Proof.
  apply (joined_rows_have_an_allowed_category
           Sample.measurements Sample.cryptic_events sample_metadata_path
           (Sample.disk Sample.archive Sample.metadata_other_sample)
           (Table ["junction_coords"; "sample_name"; "cluster"; "junc_cat";
                   "genotype"; "TDP43_kd"; "rescueExpression"]
              [[Some "coordsA"; Some "s1"; Some "c1"; Some "novel_acceptor";
                None; None; None]])
           (Sample.disk Sample.archive Sample.metadata_other_sample) 1 3).
  - apply sample_tables_rectangular.
  - apply sample_tables_rectangular.
  - reflexivity.
  - intros r [<- | []]. reflexivity.
  - vm_compute. reflexivity.
  - reflexivity.
  - left. reflexivity.
Defined.



(** ** The aggregation, continued *)

Lemma filter_disjoint_length {A} (p q : A -> bool) (l : list A) :
  (forall x, In x l -> p x && q x = false) ->
  length (List.filter p l) + length (List.filter q l)
  = length (List.filter (fun x => p x || q x) l).
Proof.
  induction l as [| a l IH]; intros Hdis; simpl; [reflexivity |].
  pose proof (Hdis a (or_introl eq_refl)) as Ha.
  specialize (IH (fun x Hx => Hdis x (or_intror Hx))).
  destruct (p a), (q a); simpl in *; try discriminate Ha; lia.
Qed.

Lemma group_counts_add_up g (keys : list string) (l : list row) :
  List.NoDup keys ->
  fold_right
    (fun key n => length (List.filter (fun x => cell_is key (get g x)) l) + n)
    0 keys
  = length (List.filter (fun x => cell_in keys (get g x)) l).
Proof.
  induction 1 as [| key keys Hnotin Hnodup IH]; simpl.
  - induction l as [| a l IHl]; simpl; [reflexivity |].
    destruct (get g a); simpl; exact IHl.
  - rewrite IH, filter_disjoint_length.
    + f_equal. apply filter_ext. intros x.
      destruct (get g x) as [s |]; reflexivity.
    + intros x _. destruct (get g x) as [s |]; simpl; [| reflexivity].
      destruct (String.eqb_spec s key) as [-> | Hne]; simpl; [| reflexivity].
      destruct (existsb (String.eqb key) keys) eqn:Hex; [| reflexivity].
      exfalso. apply Hnotin. apply existsb_exists in Hex.
      destruct Hex as (k & Hk & Heq). apply String.eqb_eq in Heq. subst. exact Hk.
Qed.

Lemma groupby_agg_inv df s :
  groupby_agg df = Ok s ->
  exists g k r,
    column_index "genotype" (schema df) = Ok g /\
    column_index "TDP43_kd" (schema df) = Ok k /\
    column_index "rescueExpression" (schema df) = Ok r /\
    s = map (fun key =>
               let group := List.filter (fun x => cell_is key (get g x)) (rows df) in
               SummaryRow key (length group)
                 (count_is "siTDP43" k group) (count_is "rescueInduced" r group))
          (group_keys (map (get g) (rows df))).
Proof.
  unfold groupby_agg. intros H.
  apply rbind_ok in H. destruct H as (g & Hg & H).
  apply rbind_ok in H. destruct H as (k & Hk & H).
  apply rbind_ok in H. destruct H as (r & Hr & H).
  injection H as <-. exists g, k, r. auto.
Qed.

Lemma count_joined_ok df s : count_joined df = Ok s -> groupby_agg df = Ok s.
Proof.
  unfold count_joined. destruct (groupby_agg df); intros H; inversion H.
  reflexivity.
Qed.

(** X13.  The counts add up: the [cryptic_count]s of the summary sum to the
    number of joined rows that have a genotype.  Rows whose genotype is
    null, as the second join can produce them, are counted in no group. *)
Theorem count_joined_counts_add_up (df : table) (s : summary) (g : nat) :
  count_joined df = Ok s ->
  column_index "genotype" (schema df) = Ok g ->
  total_count s = count_rows (has_value g) (rows df).
Proof.
  intros H Hg. apply count_joined_ok, groupby_agg_inv in H.
  destruct H as (g' & k & r & Hg' & _ & _ & ->).
  rewrite Hg in Hg'. injection Hg' as <-.
  unfold total_count, count_rows.
  transitivity
    (fold_right
       (fun key n =>
          length (List.filter (fun x => cell_is key (get g x)) (rows df)) + n)
       0 (group_keys (map (get g) (rows df)))).
  - induction (group_keys (map (get g) (rows df))) as [| key keys IH]; simpl;
      [reflexivity | rewrite IH; reflexivity].
  - rewrite group_counts_add_up by apply group_keys_NoDup.
    f_equal. apply filter_ext_in. intros x Hx. unfold has_value.
    destruct (get g x) as [v |] eqn:Hv; simpl; [| reflexivity].
    apply existsb_exists. exists v. split; [| apply String.eqb_refl].
    apply group_keys_In. rewrite <- Hv. apply in_map. exact Hx.
Qed.

Lemma count_joined_counts_add_up_witness :
  total_count [SummaryRow "KO" 1 1 1] = count_rows (has_value 4) (rows Sample.joined).
Proof.
  apply (count_joined_counts_add_up Sample.joined [SummaryRow "KO" 1 1 1] 4);
    reflexivity.
Defined.




(** X15.  [count_joined] fails exactly when one of its three columns cannot
    be addressed, and what it then raises is never the error of that column:
    the handler has swallowed it, and the [raise] of line 171 finds no
    active exception. *)
Theorem count_joined_fails_with_runtime_error (df : table) :
  (forall e, count_joined df = Raise e ->
     e = RuntimeError /\
     exists name,
       In name ["genotype"; "TDP43_kd"; "rescueExpression"] /\
       column_index name (schema df) = Raise (KeyError name)) /\
  (forall name,
     In name ["genotype"; "TDP43_kd"; "rescueExpression"] ->
     column_index name (schema df) = Raise (KeyError name) ->
     count_joined df = Raise RuntimeError).
Proof.
  split.
  - intros e He. unfold count_joined, groupby_agg in He.
    destruct (column_index "genotype" (schema df)) as [g | e1] eqn:Hg.
    2: { simpl in He. injection He as <-. split; [reflexivity |].
         pose proof (column_index_raises _ _ _ Hg) as ->.
         exists "genotype". split; [simpl; auto | exact Hg]. }
    destruct (column_index "TDP43_kd" (schema df)) as [k | e2] eqn:Hk.
    2: { simpl in He. injection He as <-. split; [reflexivity |].
         pose proof (column_index_raises _ _ _ Hk) as ->.
         exists "TDP43_kd". split; [simpl; auto | exact Hk]. }
    destruct (column_index "rescueExpression" (schema df)) as [r | e3] eqn:Hr.
    2: { simpl in He. injection He as <-. split; [reflexivity |].
         pose proof (column_index_raises _ _ _ Hr) as ->.
         exists "rescueExpression". split; [simpl; auto | exact Hr]. }
    discriminate He.
  - intros name Hin Hname. unfold count_joined, groupby_agg.
    destruct Hin as [<- | [<- | [<- | []]]]; rewrite Hname; simpl;
      try reflexivity.
    + destruct (column_index "genotype" (schema df)); reflexivity.
    + destruct (column_index "genotype" (schema df)); simpl; [| reflexivity].
      destruct (column_index "TDP43_kd" (schema df)); reflexivity.
Qed.

Lemma count_joined_fails_with_runtime_error_witness :
  count_joined Sample.measurements = Raise RuntimeError.
Proof.
  apply (proj2 (count_joined_fails_with_runtime_error Sample.measurements)
           "genotype").
  - left. reflexivity.
  - reflexivity.
Defined.

(** ** The condition filter, continued *)

(** X16.  Without a [TDP43_kd] column [filter_joined] raises the [KeyError]
    of that column before it has written anything. *)
Theorem filter_joined_without_knockdown_column
  (joined_df : table) (fs : filesystem) :
  ~ In "TDP43_kd" (schema joined_df) ->
  filter_joined joined_df fs = (Raise (KeyError "TDP43_kd"), fs).
Proof.
  intros Hnot. unfold filter_joined, lift, filter_equal. unfold bind at 1.
  rewrite (column_index_absent _ _ Hnot). reflexivity.
Qed.

Lemma filter_joined_without_knockdown_column_witness :
  filter_joined Sample.measurements (Sample.disk Sample.archive Sample.metadata)
  = (Raise (KeyError "TDP43_kd"), Sample.disk Sample.archive Sample.metadata).
Proof.
  apply (filter_joined_without_knockdown_column Sample.measurements
           (Sample.disk Sample.archive Sample.metadata)).
  simpl. intros [H | [H | [H | []]]]; discriminate H.
Defined.

(** ** The orchestrator, continued *)

Lemma insert_keeps_dir (fs : filesystem) d d' (dir : directory) :
  is_Some (fs !! d) -> is_Some (<[d' := dir]> fs !! d).
Proof.
  intros H. apply lookup_insert_is_Some.
  destruct (decide (d' = d)); [left | right]; auto.
Qed.

Lemma keeps_dir_ret {A} d (a : A) : keeps_dir d (ret a).
Proof. intros fs H. exact H. Qed.

Lemma keeps_dir_raise {A} d e : keeps_dir d (@raise A e).
Proof. intros fs H. exact H. Qed.

Lemma keeps_dir_lift {A} d (r : result A) : keeps_dir d (lift r).
Proof. intros fs H. exact H. Qed.

Lemma keeps_dir_bind {A B} d (m : M A) (k : A -> M B) :
  keeps_dir d m -> (forall a, keeps_dir d (k a)) -> keeps_dir d (bind m k).
Proof.
  intros Hm Hk fs Hfs. unfold bind. specialize (Hm fs Hfs).
  destruct (m fs) as [[a | e] fs1]; simpl in *; [apply Hk |]; exact Hm.
Qed.

Lemma keeps_dir_open_zip d q : keeps_dir d (open_zip q).
Proof.
  intros fs H. unfold open_zip.
  destruct (lookup_path fs q) as [[[] |] |]; exact H.
Qed.

Lemma keeps_dir_read_parquet d q : keeps_dir d (read_parquet q).
Proof.
  intros fs H. unfold read_parquet.
  destruct (lookup_path fs q) as [[[] |] |]; exact H.
Qed.

Lemma keeps_dir_read_csv d q : keeps_dir d (read_csv q).
Proof.
  intros fs H. unfold read_csv.
  destruct (lookup_path fs q) as [[[] |] |]; exact H.
Qed.

Lemma keeps_dir_listdir d d' : keeps_dir d (listdir d').
Proof. intros fs H. unfold listdir. destruct (fs !! d'); exact H. Qed.

Lemma keeps_dir_ensure_dir d d' : keeps_dir d (ensure_dir d').
Proof.
  intros fs H. unfold ensure_dir.
  destruct (fs !! d'); simpl; [exact H | apply insert_keeps_dir; exact H].
Qed.

Lemma keeps_dir_extract_member d d' m : keeps_dir d (extract_member d' m).
Proof.
  intros fs H. unfold extract_member. destruct m as [f e]. simpl.
  destruct e, (default ∅ (fs !! d') !! f) as [[] |]; simpl;
    try exact H; apply insert_keeps_dir; exact H.
Qed.

Lemma keeps_dir_extractall d d' members : keeps_dir d (extractall d' members).
Proof.
  induction members as [| m members IH]; simpl.
  - apply keeps_dir_ret.
  - apply keeps_dir_bind; [apply keeps_dir_extract_member | intros _; exact IH].
Qed.

Lemma keeps_dir_write_file d q c : keeps_dir d (write_file q c).
Proof.
  intros fs H. unfold write_file. destruct (fs !! q.1) as [dir |]; [| exact H].
  destruct (dir !! q.2) as [[] |]; simpl;
    try exact H; apply insert_keeps_dir; exact H.
Qed.

Lemma keeps_dir_os_remove d q : keeps_dir d (os_remove q).
Proof.
  intros fs H. unfold os_remove. destruct (fs !! q.1) as [dir |]; [| exact H].
  destruct (dir !! q.2) as [[] |]; simpl;
    try exact H; apply insert_keeps_dir; exact H.
Qed.

Lemma keeps_dir_os_rmdir d d' : d <> d' -> keeps_dir d (os_rmdir d').
Proof.
  intros Hne fs H. unfold os_rmdir. destruct (fs !! d') as [dir |]; [| exact H].
  destruct (bool_decide (dir = ∅)); simpl; [| exact H].
  rewrite lookup_delete_ne; [exact H | auto].
Qed.

Create HintDb dirs.

#[export] Hint Resolve keeps_dir_ret keeps_dir_raise keeps_dir_lift
  keeps_dir_open_zip keeps_dir_read_parquet keeps_dir_read_csv
  keeps_dir_listdir keeps_dir_ensure_dir keeps_dir_extractall
  keeps_dir_write_file keeps_dir_os_remove keeps_dir_os_rmdir : dirs.

Lemma keeps_dir_remove_all d files : keeps_dir d (remove_all files).
Proof.
  induction files as [| q files IH]; simpl; [auto with dirs |].
  apply keeps_dir_bind; [auto with dirs | intros _; exact IH].
Qed.

Lemma keeps_dir_load_parquet_files d files :
  keeps_dir d (load_parquet_files files).
Proof.
  apply keeps_dir_bind.
  - generalize (@None table).
    induction files as [| q files IH]; intros acc; simpl; [auto with dirs |].
    apply keeps_dir_bind; [auto with dirs | intros t; apply IH].
  - intros [t |]; auto with dirs.
Qed.

Lemma keeps_dir_filter_splice d q : keeps_dir d (filter_splice q).
Proof. apply keeps_dir_bind; auto with dirs. Qed.

Lemma keeps_dir_join_datasets d t1 t2 q : keeps_dir d (join_datasets t1 t2 q).
Proof.
  unfold join_datasets. apply keeps_dir_bind; [auto with dirs |].
  intros t. apply keeps_dir_bind; auto with dirs.
Qed.

Lemma keeps_dir_filter_joined d t : keeps_dir d (filter_joined t).
Proof.
  unfold filter_joined, write_csv.
  repeat (apply keeps_dir_bind; [auto with dirs | intros ?]).
  auto with dirs.
Qed.

#[export] Hint Resolve keeps_dir_remove_all keeps_dir_load_parquet_files
  keeps_dir_filter_splice keeps_dir_join_datasets keeps_dir_filter_joined : dirs.

Lemma keeps_dir_raising {A} d (m : M A) : keeps_dir d m -> raising_keeps_dir d m.
Proof.
  intros Hm fs e fs' Hfs Hrun. specialize (Hm fs Hfs).
  rewrite Hrun in Hm. exact Hm.
Qed.

Lemma raising_keeps_dir_bind {A B} d (m : M A) (k : A -> M B) :
  keeps_dir d m -> (forall a, raising_keeps_dir d (k a)) ->
  raising_keeps_dir d (bind m k).
Proof.
  intros Hm Hk fs e fs' Hfs Hrun. unfold bind in Hrun. specialize (Hm fs Hfs).
  destruct (m fs) as [[a | e0] fs1]; simpl in *.
  - eapply Hk; [exact Hm | exact Hrun].
  - injection Hrun as _ <-. exact Hm.
Qed.

Lemma raising_keeps_dir_rmdir {A} d d' (a : A) :
  raising_keeps_dir d (os_rmdir d' ;;; ret a).
Proof.
  intros fs e fs' Hfs Hrun. unfold bind, os_rmdir, ret in Hrun.
  destruct (fs !! d') as [dir |].
  - destruct (bool_decide (dir = ∅)); [discriminate Hrun |].
    injection Hrun as _ <-. exact Hfs.
  - injection Hrun as _ <-. exact Hfs.
Qed.

Lemma extract_leaves_directory zip d fs :
  is_Some ((extract_all_parquet_from_zip zip d fs).2 !! d).
Proof.
  unfold extract_all_parquet_from_zip. unfold bind at 1.
  destruct (ensure_dir_spec d fs) as (fs1 & -> & Hdir & _).
  revert fs1 Hdir.
  change (keeps_dir d
    (members <- open_zip zip ;;
     extractall d members ;;;
     names <- listdir d ;;
     let parquet_files :=
       map (fun f => (d, f))
         (List.filter (fun f => endswith f ".parquet") names) in
     if Nat.eqb (length parquet_files) 0
     then raise (NoParquetFiles d)
     else ret parquet_files)).
  repeat (apply keeps_dir_bind; [auto with dirs | intros ?]).
  cbv zeta.
  match goal with |- context [if ?b then _ else _] => destruct b end;
    auto with dirs.
Qed.

(** X17.  A run that raises never cleans up: whichever stage fails, the
    extraction directory is on the disk afterwards. *)
Theorem failed_run_leaves_extraction_directory
  (zip splice meta : path) (d : string) (fs : filesystem) (e : exn)
  (fs' : filesystem) :
  process_data zip splice meta d fs = (Raise e, fs') ->
  is_Some (fs' !! d).
Proof.
  intros H. unfold process_data in H. unfold bind at 1 in H.
  pose proof (extract_leaves_directory zip d fs) as Hdir.
  destruct (extract_all_parquet_from_zip zip d fs) as [[files | e0] fs1];
    simpl in Hdir.
  2: { injection H as _ <-. exact Hdir. }
  revert H. revert Hdir. revert fs'. revert e. revert fs1.
  change (raising_keeps_dir d
    (parquet_dataset <- load_parquet_files files ;;
     filtered_df <- filter_splice splice ;;
     joined_df <- join_datasets parquet_dataset filtered_df meta ;;
     filtered_data_df <- filter_joined joined_df ;;
     counted_data_df <- lift (count_joined joined_df) ;;
     remove_all files ;;;
     os_rmdir d ;;;
     ret (filtered_data_df, counted_data_df))).
  do 6 (apply raising_keeps_dir_bind; [auto with dirs | intros ?]).
  apply raising_keeps_dir_rmdir.
Qed.

Lemma failed_run_leaves_extraction_directory_witness :
  is_Some
    ((process_data zip_path splice_events_path sample_metadata_path
        default_extract_dir
        (Sample.disk Sample.archive Sample.metadata_no_rescue)).2
       !! default_extract_dir).
Proof.
  apply (failed_run_leaves_extraction_directory zip_path splice_events_path
           sample_metadata_path default_extract_dir
           (Sample.disk Sample.archive Sample.metadata_no_rescue)
           (KeyError "rescueExpression")).
  vm_compute. reflexivity.
Defined.

Lemma write_file_inv p c fs u fs' :
  write_file p c fs = (Ok u, fs') ->
  exists dir, fs !! p.1 = Some dir /\ fs' = <[p.1 := <[p.2 := File c]> dir]> fs.
Proof.
  unfold write_file. destruct (fs !! p.1) as [dir |]; [| discriminate].
  destruct (dir !! p.2) as [[] |]; intros H; inversion H; eauto.
Qed.

Lemma filter_equal_schema t name v out :
  filter_equal t name v = Ok out -> schema out = schema t.
Proof.
  unfold filter_equal. intros H. apply rbind_ok in H.
  destruct H as (i & _ & H). injection H as <-. reflexivity.
Qed.

(** What a successful [filter_joined] has computed and written. *)
Lemma filter_joined_ok_inv joined_df fs t fs' :
  filter_joined joined_df fs = (Ok t, fs') ->
  exists kd,
    filter_equal joined_df "TDP43_kd" "siTDP43" = Ok kd /\
    filter_equal kd "rescueExpression" "rescueInduced" = Ok t /\
    is_Some (fs' !! ".") /\
    lookup_path fs' unfiltered_csv = Some (File (Csv kd)).
Proof.
  intros H. unfold filter_joined, write_csv in H.
  bind_inv H. unfold lift in Hstep. injection Hstep as Hkd <-.
  bind_inv H. apply write_file_inv in Hstep. destruct Hstep as (dir & Hdir & ->).
  bind_inv H. unfold lift in Hstep. injection Hstep as Ht <-.
  unfold ret in H. injection H as <- <-.
  exists a. split; [exact Hkd |]. split; [exact Ht |].
  unfold unfiltered_csv. simpl. split.
  - rewrite lookup_insert_eq. eauto.
  - rewrite lookup_path_insert_same. apply lookup_insert_eq.
Qed.


(** What a successful run of [process_data] went through. *)
Lemma process_data_ok_inv zip splice meta d fs t s fs' :
  process_data zip splice meta d fs = (Ok (t, s), fs') ->
  exists files joined fs4 fs5 fs6,
    (forall q, In q files -> q.1 = d) /\
    filter_joined joined fs4 = (Ok t, fs5) /\
    count_joined joined = Ok s /\
    remove_all files fs5 = (Ok tt, fs6) /\
    fs' = delete d fs6.
Proof.
  intros H. unfold process_data in H.
  apply bind_ok in H. destruct H as (files & fs1 & Hextract & H).
  apply extract_ok_inv in Hextract.
  destruct Hextract as (_ & _ & _ & _ & Hfiles).
  apply bind_ok in H. destruct H as (pd & fs2 & _ & H).
  apply bind_ok in H. destruct H as (ev & fs3 & _ & H).
  apply bind_ok in H. destruct H as (joined & fs4 & _ & H).
  apply bind_ok in H. destruct H as (t' & fs5 & Hfilter & H).
  apply bind_ok in H. destruct H as (s' & fs5' & Hcount & H).
  unfold lift in Hcount. injection Hcount as Hcount <-.
  apply bind_ok in H. destruct H as ([] & fs6 & Hremove & H).
  apply bind_ok in H. destruct H as (u & fs7 & Hrmdir & H).
  apply os_rmdir_ok in Hrmdir. subst fs7.
  unfold ret in H. injection H as <- <- <-.
  exists files, joined, fs4, fs5, fs6.
  split; [intros q Hq; apply Hfiles in Hq; tauto |]. auto.
Qed.



(** X19.  The two results agree: a row of the single-pass filter of a table
    belongs to a genotype of its summary, unless its genotype is null, and
    that genotype has at least one knockdown row and at least one rescued
    row. *)
Theorem filtered_rows_are_counted
  (joined t : table) (s : summary) (g : nat) (x : row) (key : string) :
  filter_single_pass joined = Ok t ->
  count_joined joined = Ok s ->
  column_index "genotype" (schema joined) = Ok g ->
  In x (rows t) ->
  get g x = Some key ->
  exists sr, In sr s /\ genotype sr = key /\
             1 <= TDP34_kd_associated sr /\ 1 <= rescueInduced sr.
Proof.
  intros Hfilter Hcount Hg Hx Hkey.
  apply count_joined_ok, groupby_agg_inv in Hcount.
  destruct Hcount as (g' & k & r & Hg' & Hk & Hr & ->).
  rewrite Hg in Hg'. injection Hg' as <-.
  unfold filter_single_pass in Hfilter. rewrite Hk, Hr in Hfilter.
  simpl in Hfilter. injection Hfilter as <-. simpl in Hx.
  apply filter_In in Hx. destruct Hx as [Hin Hboth].
  apply andb_true_iff in Hboth. destruct Hboth as [Hkd Hres].
  eexists. split.
  - apply in_map_iff. exists key. split; [reflexivity |].
    apply group_keys_In. rewrite <- Hkey. apply in_map. exact Hin.
  - simpl. split; [reflexivity |]. unfold count_is.
    assert (Hpos : forall p : row -> bool,
              p x = true ->
              1 <= length (List.filter p
                             (List.filter (fun y => cell_is key (get g y))
                                (rows joined)))).
    { intros p Hp.
      assert (Hmem : In x (List.filter p
                             (List.filter (fun y => cell_is key (get g y))
                                (rows joined)))).
      { apply filter_In. split; [| exact Hp]. apply filter_In.
        split; [exact Hin |]. apply cell_is_true. exact Hkey. }
      destruct (List.filter p _); [destruct Hmem | simpl; lia]. }
    split; apply Hpos; assumption.
Qed.

Lemma filtered_rows_are_counted_witness :
  exists sr, In sr [SummaryRow "KO" 1 1 1] /\ genotype sr = "KO" /\
             1 <= TDP34_kd_associated sr /\ 1 <= rescueInduced sr.
Proof.
  apply (filtered_rows_are_counted Sample.joined Sample.joined
           [SummaryRow "KO" 1 1 1] 4
           [Some "coordsA"; Some "s1"; Some "c1"; Some "novel_acceptor";
            Some "KO"; Some "siTDP43"; Some "rescueInduced"] "KO").
  - reflexivity.
  - reflexivity.
  - reflexivity.
  - left. reflexivity.
  - reflexivity.
Defined.

(** X20.  After a successful run of the script the three tables are on the
    disk and the extraction directory is gone: the final filtered table and
    the summary are written after [process_data] has returned, the
    knockdown-only table stays where [filter_joined] has put it.  (No
    sub-directory stands where the two final files go.) *)
Theorem successful_script_writes_the_tables
  (fs : filesystem) (t : table) (s : summary) (fs1 : filesystem) :
  process_data zip_path splice_events_path sample_metadata_path
    default_extract_dir fs = (Ok (t, s), fs1) ->
  lookup_path fs filtered_csv <> Some Folder ->
  lookup_path fs summary_csv <> Some Folder ->
  lookup_path (script fs) filtered_csv = Some (File (Csv t)) /\
  lookup_path (script fs) summary_csv = Some (File (Csv (summary_table s))) /\
  (exists kd, lookup_path (script fs) unfiltered_csv = Some (File (Csv kd))) /\
  script fs !! default_extract_dir = None.
Proof.
  intros Hrun Hf Hs.
  assert (Hframe : forall p, p.1 <> default_extract_dir -> p <> unfiltered_csv ->
                             lookup_path fs1 p = lookup_path fs p).
  { intros p H1 H2.
    replace fs1 with
      (process_data zip_path splice_events_path sample_metadata_path
         default_extract_dir fs).2 by (rewrite Hrun; reflexivity).
    apply preserves_process_data; assumption. }
  rewrite <- (Hframe filtered_csv) in Hf by (simpl; discriminate).
  rewrite <- (Hframe summary_csv) in Hs by (simpl; discriminate).
  pose proof (process_data_ok_inv _ _ _ _ _ _ _ _ Hrun)
    as (files & joined & fs4 & fs5 & fs6 & Hfiles & Hfilter & _ & Hremove & ->).
  apply filter_joined_ok_inv in Hfilter.
  destruct Hfilter as (kd & _ & _ & Hdot & Hkd).
  assert (Hdot6 : is_Some (fs6 !! ".")).
  { pose proof (keeps_dir_remove_all "." files fs5 Hdot) as H.
    rewrite Hremove in H. exact H. }
  assert (Hkd6 : lookup_path fs6 unfiltered_csv = Some (File (Csv kd))).
  { rewrite <- Hkd.
    pose proof (preserves_remove_all unfiltered_csv files) as H.
    specialize (H ltac:(intros q Hq; rewrite (Hfiles q Hq); simpl; discriminate) fs5).
    rewrite Hremove in H. exact H. }
  destruct Hdot6 as [dir Hdir].
  unfold lookup_path, filtered_csv, summary_csv, unfiltered_csv,
    default_extract_dir in *.
  simpl in *.
  rewrite lookup_delete_ne in Hf, Hs by discriminate.
  rewrite Hdir in Hf, Hs, Hkd6.
  unfold script, script_body.
  rewrite (bind_step _ _ _ _ _ Hrun).
  unfold bind, write_csv, to_csv, write_file, filtered_csv, summary_csv,
    default_extract_dir.
  simpl.
  rewrite lookup_delete_ne by discriminate. rewrite Hdir.
  destruct (dir !! "filtered_data.csv") as [[c |] |] eqn:Hfc;
    try congruence; simpl;
    rewrite lookup_insert_eq, lookup_insert_ne by discriminate;
    destruct (dir !! "cryptic_summarisation.csv") as [[c' |] |] eqn:Hsc;
    try congruence; simpl;
    rewrite !lookup_insert_eq, ?lookup_insert_ne, ?lookup_insert_eq,
      ?lookup_delete_eq by discriminate;
    rewrite ?lookup_insert_ne, ?lookup_delete_eq by discriminate;
    repeat split; try reflexivity; eauto.
Qed.

Lemma successful_script_writes_the_tables_witness :
  lookup_path (script (Sample.disk Sample.archive Sample.metadata)) filtered_csv
  = Some (File (Csv Sample.joined)).
Proof.
  assert (Hrun :
    process_data zip_path splice_events_path sample_metadata_path
      default_extract_dir (Sample.disk Sample.archive Sample.metadata)
    = (Ok (Sample.joined, [SummaryRow "KO" 1 1 1]),
       (process_data zip_path splice_events_path sample_metadata_path
          default_extract_dir (Sample.disk Sample.archive Sample.metadata)).2))
    by (vm_compute; reflexivity).
  apply (successful_script_writes_the_tables _ _ _ _ Hrun).
  - vm_compute. discriminate.
  - vm_compute. discriminate.
Defined.

(** ** Extracting twice *)

Lemma extractall_ok_state d members (fs : filesystem) (dir : directory) fs' :
  fs !! d = Some dir ->
  extractall d members fs = (Ok tt, fs') ->
  fs' = <[d := insert_members dir members]> fs.
Proof.
  revert fs dir. induction members as [| m members IH]; intros fs dir Hdir H;
    simpl in H.
  - injection H as <-. simpl. symmetry. apply insert_id. exact Hdir.
  - apply bind_ok in H. destruct H as ([] & fs1 & Hm & H).
    apply extract_member_ok in Hm. rewrite Hdir in Hm. simpl in Hm.
    rewrite (IH fs1 (<[m.1 := m.2]> dir)); [| subst; apply lookup_insert_eq | exact H].
    subst fs1. rewrite insert_insert_eq. reflexivity.
Qed.

Lemma same_kind_trans e1 e2 e3 :
  same_kind e1 e2 = true -> same_kind e3 e2 = true -> same_kind e3 e1 = true.
Proof. destruct e1, e2, e3; simpl; congruence. Qed.

(** An archive whose members all meet an entry of their kind extracts. *)
Lemma extractall_fits d members (fs : filesystem) (dir : directory) :
  fs !! d = Some dir ->
  (forall f e, In (f, e) members ->
     exists e', dir !! f = Some e' /\ same_kind e e' = true) ->
  exists fs', extractall d members fs = (Ok tt, fs').
Proof.
  revert fs dir. induction members as [| [f e] members IH]; intros fs dir Hdir Hfit;
    simpl.
  - eexists. reflexivity.
  - destruct (Hfit f e (or_introl eq_refl)) as (e' & He' & Hk).
    assert (Hm : extract_member d (f, e) fs
                 = (Ok tt, <[d := <[f := e]> dir]> fs)).
    { unfold extract_member. rewrite Hdir. simpl. rewrite He'.
      destruct e, e'; try discriminate Hk; reflexivity. }
    rewrite (bind_step _ _ _ _ _ Hm).
    apply (IH _ (<[f := e]> dir)); [apply lookup_insert_eq |].
    intros f2 e2 Hin. destruct (decide (f = f2)) as [<- | Hne].
    + exists e. rewrite lookup_insert_eq. split; [reflexivity |].
      destruct (Hfit f e2 (or_intror Hin)) as (e'' & He'' & Hk2).
      rewrite He' in He''. injection He'' as <-.
      eapply same_kind_trans; eassumption.
    + rewrite lookup_insert_ne by exact Hne. apply Hfit. right. exact Hin.
Qed.

(** A successful extraction does not change the kind of an entry. *)
Lemma extractall_keeps_kind d members fs fs' f e :
  extractall d members fs = (Ok tt, fs') ->
  lookup_path fs (d, f) = Some e ->
  exists e', lookup_path fs' (d, f) = Some e' /\ same_kind e e' = true.
Proof.
  revert fs e. induction members as [| [f1 e1] members IH]; intros fs e H He;
    simpl in H.
  - injection H as <-. exists e. split; [exact He | destruct e; reflexivity].
  - apply bind_ok in H. destruct H as ([] & fs1 & Hm & H).
    assert (Hdir : exists dir, fs !! d = Some dir /\ dir !! f = Some e).
    { unfold lookup_path in He. simpl in He.
      destruct (fs !! d) as [dir |]; [eauto | discriminate He]. }
    destruct Hdir as (dir & Hdir & Hf).
    unfold extract_member in Hm. rewrite Hdir in Hm. simpl in Hm.
    destruct (decide (f1 = f)) as [-> | Hne].
    + rewrite Hf in Hm.
      assert (Hk1 : same_kind e e1 = true /\ fs1 = <[d := <[f := e1]> dir]> fs)
        by (destruct e1, e; try discriminate Hm; injection Hm as <-;
            split; reflexivity).
      destruct Hk1 as [Hk1 ->].
      destruct (IH _ e1 H) as (e' & He' & Hk).
      { rewrite lookup_path_insert_same. apply lookup_insert_eq. }
      exists e'. split; [exact He' |].
      destruct e, e1, e'; simpl in *; congruence.
    + assert (Hfs1 : lookup_path fs1 (d, f) = Some e).
      { destruct e1, (dir !! f1) as [[] |]; try discriminate Hm;
          injection Hm as <-;
          rewrite lookup_path_insert_same, lookup_insert_ne by exact Hne;
          exact Hf. }
      exact (IH _ _ H Hfs1).
Qed.

(** After a successful extraction every member meets an entry of its
    kind. *)
Lemma extractall_ok_fits d members fs fs' f e :
  extractall d members fs = (Ok tt, fs') ->
  In (f, e) members ->
  exists e', lookup_path fs' (d, f) = Some e' /\ same_kind e e' = true.
Proof.
  revert fs. induction members as [| m members IH]; intros fs H Hin;
    [destruct Hin |].
  simpl in H. apply bind_ok in H. destruct H as ([] & fs1 & Hm & H).
  destruct Hin as [-> | Hin]; [| exact (IH _ H Hin)].
  apply extract_member_ok in Hm. simpl in Hm.
  eapply extractall_keeps_kind; [exact H |].
  subst fs1. rewrite lookup_path_insert_same. apply lookup_insert_eq.
Qed.

Lemma insert_members_other (dir : directory) members f :
  ~ In f (map fst members) -> insert_members dir members !! f = dir !! f.
Proof.
  revert dir. induction members as [| m members IH]; intros dir Hnot; simpl in *;
    [reflexivity |].
  rewrite IH by tauto. apply lookup_insert_ne. tauto.
Qed.

Lemma insert_members_member (dir dir' : directory) members f :
  In f (map fst members) ->
  insert_members dir members !! f = insert_members dir' members !! f.
Proof.
  revert dir dir'. induction members as [| m members IH]; intros dir dir' Hin;
    simpl in *; [destruct Hin |].
  destruct (in_dec string_dec f (map fst members)) as [Hlater | Hnot].
  - apply IH. exact Hlater.
  - destruct Hin as [<- | Hin]; [| contradiction].
    rewrite !insert_members_other by exact Hnot.
    rewrite !lookup_insert_eq. reflexivity.
Qed.

Lemma insert_members_idem (dir : directory) members :
  insert_members (insert_members dir members) members = insert_members dir members.
Proof.
  apply map_eq. intros f.
  destruct (in_dec string_dec f (map fst members)) as [Hin | Hnot].
  - apply insert_members_member. exact Hin.
  - apply insert_members_other. exact Hnot.
Qed.

(** X21.  Extraction can be repeated: on the disk a successful call has
    left, a second call with the same archive, kept outside the extraction
    directory, returns the same paths and changes nothing. *)
Theorem extract_twice_is_extract_once
  (zip : path) (d : string) (fs : filesystem) (files : list path)
  (fs' : filesystem) :
  zip.1 <> d ->
  extract_all_parquet_from_zip zip d fs = (Ok files, fs') ->
  extract_all_parquet_from_zip zip d fs' = (Ok files, fs').
Proof.
  intros Hzip H.
  pose proof (extract_ok_listing _ _ _ _ _ H) as (dir' & Hdir' & Hfiles).
  pose proof (preserves_extract zip zip d Hzip fs) as Hsame.
  rewrite H in Hsame. simpl in Hsame.
  apply extract_ok_inv in H.
  destruct H as (members & Hz & Hext & Hne & _).
  assert (Hens : (ensure_dir d fs').2 = fs')
    by (unfold ensure_dir; rewrite Hdir'; reflexivity).
  destruct (extractall_fits d members fs' dir' Hdir') as [fs2 Hext2].
  { intros f e Hin.
    destruct (extractall_ok_fits _ _ _ _ _ _ Hext Hin) as (e' & He' & Hk).
    unfold lookup_path in He'. simpl in He'. rewrite Hdir' in He'. eauto. }
  assert (Hfs2 : fs2 = fs').
  { rewrite (extractall_ok_state _ _ _ _ _ Hdir' Hext2).
    destruct (ensure_dir_spec d fs) as (fs1 & He1 & [dir0 Hdir0] & _).
    rewrite He1 in Hext. simpl in Hext.
    pose proof (extractall_ok_state _ _ _ _ _ Hdir0 Hext) as Hst.
    assert (Hd' : dir' = insert_members dir0 members).
    { rewrite Hst, lookup_insert_eq in Hdir'. congruence. }
    rewrite Hd', insert_members_idem, <- Hd'. apply insert_id. exact Hdir'. }
  subst fs2.
  destruct (extract_run zip d fs' members fs') as (names & Hls & ->).
  - rewrite Hsame. exact Hz.
  - rewrite Hens. exact Hext2.
  - unfold listdir in Hls. rewrite Hdir' in Hls. injection Hls as <-.
    cbv zeta. rewrite <- Hfiles.
    destruct files; [contradiction | reflexivity].
Qed.

Lemma extract_twice_is_extract_once_witness :
  extract_all_parquet_from_zip zip_path default_extract_dir
    (extract_all_parquet_from_zip zip_path default_extract_dir
       Sample.disk_with_leftover).2
  = (Ok [(default_extract_dir, "old.parquet"); (default_extract_dir, "hek.parquet")],
     (extract_all_parquet_from_zip zip_path default_extract_dir
        Sample.disk_with_leftover).2).
Proof.
  apply (extract_twice_is_extract_once zip_path default_extract_dir
           Sample.disk_with_leftover).
  - vm_compute. discriminate.
  - vm_compute. reflexivity.
Defined.

(** ** The joiner, continued *)

Lemma join_row_matched jt lk rk n right l r :
  In r right -> key_match (get lk l) (get rk r) = true ->
  In (l ++ drop_nth rk r) (join_row jt lk rk n right l).
Proof.
  intros Hr Hkey. unfold join_row.
  assert (Hm : In r (matches lk rk l right))
    by (apply filter_In; split; assumption).
  destruct (matches lk rk l right) as [| m ms]; [destruct Hm |].
  apply in_map_iff. exists r. split; [reflexivity | exact Hm].
Qed.

Lemma join_row_left_outer_keeps lk rk n right l :
  exists rest, In (l ++ rest) (join_row LeftOuter lk rk n right l).
Proof.
  unfold join_row. destruct (matches lk rk l right) as [| m ms].
  - exists (repeat None n). left. reflexivity.
  - exists (drop_nth rk m). simpl. left. reflexivity.
Qed.

(** X22.  No matched junction is lost: a measured row whose junction
    coordinates are those of a retained event is the beginning of a row of
    the joined table, whether the metadata know its sample or not. *)
Theorem matched_rows_reach_the_joined_table
  (pt ev : table) (meta : path) (fs : filesystem) (joined : table)
  (fs' : filesystem) (lk rk : nat) (l r : row) :
  join_datasets pt ev meta fs = (Ok joined, fs') ->
  column_index "junction_coords" (schema pt) = Ok lk ->
  column_index "junction_coords" (schema ev) = Ok rk ->
  In l (rows pt) -> In r (rows ev) ->
  key_match (get lk l) (get rk r) = true ->
  exists rest, In ((l ++ drop_nth rk r) ++ rest) (rows joined).
Proof.
  intros H Hlk Hrk Hl Hr Hkey. apply join_datasets_inv in H.
  destruct H as (first & md & H1 & _ & H2).
  apply table_join_inv in H1. destruct H1 as (lk' & rk' & Hlk' & Hrk' & _ & Hrows1).
  rewrite Hlk in Hlk'. rewrite Hrk in Hrk'.
  injection Hlk' as <-. injection Hrk' as <-.
  apply table_join_inv in H2. destruct H2 as (lk2 & rk2 & _ & _ & _ & Hrows2).
  assert (Hfirst : In (l ++ drop_nth rk r) (rows first)).
  { rewrite Hrows1. apply in_flat_map. exists l. split; [exact Hl |].
    apply join_row_matched; assumption. }
  destruct (join_row_left_outer_keeps lk2 rk2
              (length (drop_nth rk2 (schema md))) (rows md)
              (l ++ drop_nth rk r)) as [rest Hrest].
  exists rest. rewrite Hrows2. apply in_flat_map.
  exists (l ++ drop_nth rk r). split; assumption.
Qed.

Lemma matched_rows_reach_the_joined_table_witness :
  exists rest,
    In (([Some "coordsA"; Some "s1"; Some "c1"]
         ++ drop_nth 0 [Some "coordsA"; Some "novel_acceptor"]) ++ rest)
      [[Some "coordsA"; Some "s1"; Some "c1"; Some "novel_acceptor";
        None; None; None]].
Proof.
  apply (matched_rows_reach_the_joined_table
           Sample.measurements Sample.cryptic_events sample_metadata_path
           (Sample.disk Sample.archive Sample.metadata_other_sample)
           (Table ["junction_coords"; "sample_name"; "cluster"; "junc_cat";
                   "genotype"; "TDP43_kd"; "rescueExpression"]
              [[Some "coordsA"; Some "s1"; Some "c1"; Some "novel_acceptor";
                None; None; None]])
           (Sample.disk Sample.archive Sample.metadata_other_sample) 0 0).
  - vm_compute. reflexivity.
  - reflexivity.
  - reflexivity.
  - left. reflexivity.
  - left. reflexivity.
  - reflexivity.
Defined.



(** ** What a successful run requires *)

Lemma os_rmdir_inv d fs u fs' :
  os_rmdir d fs = (Ok u, fs') -> fs !! d = Some ∅ /\ fs' = delete d fs.
Proof.
  unfold os_rmdir. destruct (fs !! d) as [dir |]; [| discriminate].
  destruct (bool_decide (dir = ∅)) eqn:Hempty; intros H; inversion H.
  apply bool_decide_eq_true in Hempty. subst. auto.
Qed.

Lemma preserves_os_remove_other p q : p <> q -> preserves p (os_remove q).
Proof.
  intros Hne fs. unfold os_remove.
  destruct (fs !! q.1) as [dir |] eqn:Hdir; [| reflexivity].
  destruct (dir !! q.2) as [[] |]; simpl; try reflexivity.
  destruct p as [d f], q as [d' f']. unfold lookup_path. simpl in *.
  destruct (decide (d' = d)) as [-> | Hd].
  - rewrite lookup_insert_eq, Hdir. apply lookup_delete_ne. congruence.
  - rewrite lookup_insert_ne; [reflexivity | exact Hd].
Qed.

Lemma preserves_remove_all_other p files :
  ~ In p files -> preserves p (remove_all files).
Proof.
  induction files as [| q files IH]; intros Hnot; simpl.
  - apply preserves_ret.
  - apply preserves_bind.
    + apply preserves_os_remove_other. intros ->. apply Hnot. left. reflexivity.
    + intros _. apply IH. intros Hin. apply Hnot. right. exact Hin.
Qed.

(** The states a successful run of [process_data] goes through. *)
Lemma process_data_ok_trace zip splice meta d fs out fs' :
  process_data zip splice meta d fs = (Ok out, fs') ->
  exists files fs1 joined fs5 fs6,
    extract_all_parquet_from_zip zip d fs = (Ok files, fs1) /\
    filter_joined joined fs1 = (Ok out.1, fs5) /\
    remove_all files fs5 = (Ok tt, fs6) /\
    fs6 !! d = Some ∅.
Proof.
  intros H. unfold process_data in H.
  apply bind_ok in H. destruct H as (files & fs1 & Hextract & H).
  apply bind_ok in H. destruct H as (pd & fs2 & Hload & H).
  apply bind_ok in H. destruct H as (ev & fs3 & Hsplice & H).
  apply bind_ok in H. destruct H as (joined & fs4 & Hjoin & H).
  apply bind_ok in H. destruct H as (t' & fs5 & Hfilter & H).
  apply bind_ok in H. destruct H as (s' & fs5' & Hcount & H).
  unfold lift in Hcount. injection Hcount as Hcount <-.
  apply bind_ok in H. destruct H as ([] & fs6 & Hremove & H).
  apply bind_ok in H. destruct H as (u & fs7 & Hrmdir & H).
  apply os_rmdir_inv in Hrmdir. destruct Hrmdir as [Hempty ->].
  unfold ret in H. injection H as <- <-.
  assert (E2 : fs2 = fs1)
    by (rewrite <- (load_parquet_files_state files fs1), Hload; reflexivity).
  assert (E3 : fs3 = fs2)
    by (rewrite <- (filter_splice_state splice fs2), Hsplice; reflexivity).
  assert (E4 : fs4 = fs3)
    by (rewrite <- (join_datasets_state pd ev meta fs3), Hjoin; reflexivity).
  subst fs4 fs3 fs2.
  exists files, fs1, joined, fs5, fs6. auto.
Qed.

(** X24.  A run can only succeed when the extraction directory holds
    nothing but shards: every entry that was in it before the call, and
    every member of the archive, has a name that ends in [.parquet].
    Anything else is extracted, is not removed, and makes the final
    [os.rmdir] fail. *)
Theorem successful_run_needs_only_shards
  (zip splice meta : path) (d : string) (fs : filesystem)
  (out : table * summary) (fs' : filesystem) :
  process_data zip splice meta d fs = (Ok out, fs') ->
  (forall f, is_Some (lookup_path fs (d, f)) -> parquet_name f) /\
  (forall members, lookup_path fs zip = Some (File (Zip members)) ->
     forall f e, In (f, e) members -> parquet_name f).
Proof.
  intros H. apply process_data_ok_trace in H.
  destruct H as (files & fs1 & joined & fs5 & fs6 & Hextract & Hfilter & Hremove & Hempty).
  pose proof (extract_ok_inv _ _ _ _ _ Hextract)
    as (members & Hzip & Hext & _ & Hfiles).
  destruct (ensure_dir_spec d fs) as (fs0 & He & _ & Hsame).
  rewrite He in Hext. simpl in Hext.
  destruct (extractall_ok _ _ _ _ Hext) as (_ & Hold & Hnew).
  assert (Hneed : forall f, is_Some (lookup_path fs1 (d, f)) -> parquet_name f).
  { intros f Hf.
    destruct (endswith f ".parquet") eqn:Hend; [apply endswith_spec; exact Hend |].
    exfalso.
    assert (Hnotin : ~ In (d, f) files).
    { intros Hin. apply Hfiles in Hin. destruct Hin as (_ & _ & Hp).
      apply endswith_spec in Hp. simpl in Hp. congruence. }
    assert (H5 : is_Some (lookup_path fs5 (d, f))).
    { destruct (decide ((d, f) = unfiltered_csv)) as [Heq | Hne].
      - apply filter_joined_ok_inv in Hfilter.
        destruct Hfilter as (kd & _ & _ & _ & Hkd). rewrite Heq, Hkd. eauto.
      - pose proof (preserves_filter_joined (d, f) joined Hne fs1) as Hp.
        rewrite Hfilter in Hp. simpl in Hp. rewrite Hp. exact Hf. }
    pose proof (preserves_remove_all_other (d, f) files Hnotin fs5) as H6.
    rewrite Hremove in H6. simpl in H6. rewrite <- H6 in H5.
    unfold lookup_path in H5. simpl in H5. rewrite Hempty, lookup_empty in H5.
    destruct H5 as [e He5]. discriminate He5. }
  split.
  - intros f Hf. apply Hneed, Hold. rewrite Hsame. exact Hf.
  - intros members' Hzip' f e Hin. rewrite Hzip in Hzip'.
    injection Hzip' as <-. apply Hneed. eapply Hnew. exact Hin.
Qed.

Lemma successful_run_needs_only_shards_witness :
  parquet_name "hek.parquet".
Proof.
  assert (Hrun :
    process_data zip_path splice_events_path sample_metadata_path
      default_extract_dir (Sample.disk Sample.archive Sample.metadata)
    = (Ok (Sample.joined, [SummaryRow "KO" 1 1 1]),
       (process_data zip_path splice_events_path sample_metadata_path
          default_extract_dir (Sample.disk Sample.archive Sample.metadata)).2))
    by (vm_compute; reflexivity).
  apply (proj2 (successful_run_needs_only_shards _ _ _ _ _ _ _ Hrun)
           [("hek.parquet", File (Parquet Sample.measurements))]
           ltac:(vm_compute; reflexivity)
           "hek.parquet" (File (Parquet Sample.measurements))).
  left. reflexivity.
Defined.
